(** * Cursor info: locating a node and resolving what it refers to

    A shallow embedding of [lib/IDE/CursorInfo.cpp]: the [NodeFinder] walker
    that looks for the declaration or expression at a source location, the
    on-demand type checking of a declaration and its parent closures, the
    solution callback that collects the declarations an expression may refer
    to, and [doneParsing], which hands the answer to the consumer. *)

From Stdlib Require Import List Bool Arith Lia.
From stdpp Require Import base option list gmap.

Set Default Proof Using "Type".

(** ** Source locations *)

(** A [SourceLoc] is an opaque position in a source buffer; the code only
    compares locations for equality and asks the source manager whether a
    range contains one. *)
Definition SourceLoc := nat.

Record SourceRange := mkRange { Start : SourceLoc; End : SourceLoc }.

(** The source manager, consulted through [containsRespectingReplacedRanges]
    by [NodeFinder::rangeContainsLocToResolve]. *)
Class SourceManager := {
  containsRespectingReplacedRanges : SourceRange -> SourceLoc -> bool
}.

(** ** Declaration contexts *)

Inductive DeclContextKind :=
| DCK_FileUnit
| DCK_Decl
| DCK_AbstractClosureExpr (Loc : SourceLoc).

(** A [DeclContext*] together with its chain of parents.  Only the module
    has no parent. *)
Inductive DeclContext :=
| ModuleContext (id : nat)
| NestedContext (kind : DeclContextKind) (id : nat) (parent : DeclContext).

#[global] Instance DeclContextKind_eq_dec : EqDecision DeclContextKind.
Proof. solve_decision. Defined.

#[global] Instance DeclContext_eq_dec : EqDecision DeclContext.
Proof. solve_decision. Defined.

Definition getParent (DC : DeclContext) : option DeclContext :=
  match DC with
  | ModuleContext _ => None
  | NestedContext _ _ P => Some P
  end.

(** [dyn_cast<AbstractClosureExpr>(DC)]: the closure's identity and
    location when the context is a closure. *)
Definition dyn_cast_AbstractClosureExpr (DC : DeclContext)
  : option (nat * SourceLoc) :=
  match DC with
  | NestedContext (DCK_AbstractClosureExpr L) id _ => Some (id, L)
  | _ => None
  end.

(** ** Types *)

Definition NominalTypeDecl := nat.

(** Modelled from the spec: the type representation ([swift::Type],
    [TypeBase::getAnyNominal], [getAs<AnyMetatypeType>],
    [getInstanceType]) is declared outside [src/].  A type is a nominal
    type, a metatype (type-of-a-type) of an instance type, or some other
    structural type; only a nominal type has a nominal declaration. *)
Inductive Ty :=
| NominalTy (D : NominalTypeDecl)
| MetatypeTy (Instance : Ty)
| StructuralTy (n : nat).

#[global] Instance Ty_eq_dec : EqDecision Ty.
Proof. solve_decision. Defined.

Definition getAnyNominal (T : Ty) : option NominalTypeDecl :=
  match T with
  | NominalTy D => Some D
  | _ => None
  end.

Definition getAs_AnyMetatypeType (T : Ty) : option Ty :=
  match T with
  | MetatypeTy Inst => Some Inst
  | _ => None
  end.

(** ** Syntax nodes *)

(** The kinds of declaration the code tells apart through [dyn_cast] and
    [isa]: value declarations ([ValueDecl]), variables ([VarDecl], of which
    [ParamDecl] is a subclass) and declarations that are themselves
    declaration contexts. *)
Inductive DeclKind :=
| DK_Import
| DK_Extension
| DK_PatternBinding
| DK_TopLevelCode
| DK_Nominal
| DK_TypeAlias
| DK_Func
| DK_EnumElement
| DK_Var
| DK_Param.

#[global] Instance DeclKind_eq_dec : EqDecision DeclKind.
Proof. solve_decision. Defined.

Definition isValueDeclKind (k : DeclKind) : bool :=
  match k with
  | DK_Nominal | DK_TypeAlias | DK_Func | DK_EnumElement | DK_Var | DK_Param =>
      true
  | _ => false
  end.

Definition isDeclContextKind (k : DeclKind) : bool :=
  match k with
  | DK_Extension | DK_TopLevelCode | DK_Nominal | DK_TypeAlias | DK_Func
  | DK_EnumElement => true
  | _ => false
  end.

Definition isVarDeclKind (k : DeclKind) : bool :=
  match k with
  | DK_Var | DK_Param => true
  | _ => false
  end.

Definition isParamDeclKind (k : DeclKind) : bool :=
  match k with
  | DK_Param => true
  | _ => false
  end.

(** A declaration node.  [decl_id] stands for the node's address: two
    [Decl*] are the same pointer when their ids agree. *)
Record Decl := mkDecl {
  decl_id : nat;
  decl_kind : DeclKind;
  decl_hasName : bool;
  decl_loc : SourceLoc;
  decl_rangeIncludingAttrs : SourceRange;
  decl_context : DeclContext;
  decl_hasAttachedPropertyWrapper : bool
}.

(** A [ValueDecl*] is a [Decl*] whose kind is a value declaration. *)
Abbreviation ValueDecl := Decl.

Definition dyn_cast_ValueDecl (D : Decl) : option ValueDecl :=
  if isValueDeclKind (decl_kind D) then Some D else None.

Definition dyn_cast_VarDecl (D : Decl) : option Decl :=
  if isVarDeclKind (decl_kind D) then Some D else None.

Definition isa_ParamDecl (D : Decl) : bool := isParamDeclKind (decl_kind D).

(** [dyn_cast<DeclContext>(D)]: the context a declaration introduces; its
    parent is the context the declaration lives in. *)
Definition dyn_cast_DeclContext (D : Decl) : option DeclContext :=
  if isDeclContextKind (decl_kind D)
  then Some (NestedContext DCK_Decl (decl_id D) (decl_context D))
  else None.

Inductive ExprKind :=
| EK_DeclRef
| EK_UnresolvedDot
| EK_UnresolvedDeclRef
| EK_Closure
| EK_AutoClosure
| EK_CaptureList
| EK_Call
| EK_MemberRef
| EK_Literal.

#[global] Instance ExprKind_eq_dec : EqDecision ExprKind.
Proof. solve_decision. Defined.

(** An expression node; [expr_parent] is the context the expression occurs
    in (for a closure, its [getParent()]). *)
Record Expr := mkExpr {
  expr_id : nat;
  expr_kind : ExprKind;
  expr_loc : SourceLoc;
  expr_parent : DeclContext
}.

(** [dyn_cast<ClosureExpr>(E)], as the declaration context it is. *)
Definition dyn_cast_ClosureExpr (E : Expr) : option DeclContext :=
  match expr_kind E with
  | EK_Closure =>
      Some (NestedContext (DCK_AbstractClosureExpr (expr_loc E)) (expr_id E)
              (expr_parent E))
  | _ => None
  end.

Definition isa_CaptureListExpr (E : Expr) : bool :=
  match expr_kind E with EK_CaptureList => true | _ => false end.

Inductive StmtKind :=
| SK_Brace
| SK_Return
| SK_If
| SK_Guard
| SK_While
| SK_ForEach.

Record Stmt := mkStmt { stmt_id : nat; stmt_kind : StmtKind }.

(** [isa<LabeledConditionalStmt>(S)]: [if], [guard] and [while]. *)
Definition isa_LabeledConditionalStmt (St : Stmt) : bool :=
  match stmt_kind St with
  | SK_If | SK_Guard | SK_While => true
  | _ => false
  end.

(** The syntax tree as the walker sees it: a node and the nodes the walker
    visits below it, in visiting order. *)
#[warnings="-register-all"]
Inductive ASTNode :=
| DeclNode (D : Decl) (children : list ASTNode)
| ExprNode (E : Expr) (children : list ASTNode)
| StmtNode (St : Stmt) (children : list ASTNode).

Record SourceFile := mkSourceFile {
  sf_id : nat;
  sf_module : DeclContext;
  sf_items : list ASTNode
}.

(** The source file as a [DeclContext]. *)
Definition SourceFile_asContext (SF : SourceFile) : DeclContext :=
  NestedContext DCK_FileUnit (sf_id SF) (sf_module SF).

(** [getShorthandShadows] for a capture list and for a labeled conditional
    statement: pairs of (shadowing declaration, shadowed declaration). *)
Class ShorthandShadows := {
  getShorthandShadows_CaptureList :
    Expr -> DeclContext -> list (ValueDecl * ValueDecl);
  getShorthandShadows_CondStmt :
    Stmt -> DeclContext -> list (ValueDecl * ValueDecl)
}.

(** ** Faults *)

Inductive Assertion :=
| Assert_ResultIsNull
| Assert_StackBackIsContext
| Assert_ShadowKeyIsFresh.

(** What can go wrong: an [assert] that does not hold (in a build with
    assertions), [back()] / [pop_back()] on an empty vector, or a read
    through an [ArrayRef] whose vector has moved its elements to another
    buffer since the [ArrayRef] was taken. *)
Inductive Fault :=
| AssertionFailed (a : Assertion)
| EmptyVectorAccess
| DanglingArrayRefRead.

Inductive result (A : Type) :=
| Ok (a : A)
| Faulted (f : Fault).
Arguments Ok {A} a.
Arguments Faulted {A} f.

(** ** NodeFinder *)

Inductive NodeFinderResult :=
| NodeFinderDeclResult (ValueD : ValueDecl)
| NodeFinderExprResult (E : Expr) (DC : DeclContext).

(** [llvm::DenseMap<ValueDecl *, ValueDecl *>], keyed by the declaration's
    identity; a mapped value may be the null pointer. *)
Abbreviation ShadowMap := (gmap nat (option ValueDecl)).

Record NodeFinder := mkNodeFinder {
  LocToResolve : SourceLoc;
  DeclContextStack : list DeclContext;
  Result : option NodeFinderResult;
  ShorthandShadowedDecls : ShadowMap
}.

Definition NodeFinder_new (SrcFile : SourceFile) (Loc : SourceLoc)
  : NodeFinder :=
  {| LocToResolve := Loc;
     DeclContextStack := [SourceFile_asContext SrcFile];
     Result := None;
     ShorthandShadowedDecls := ∅ |}.

Definition set_stack (s : list DeclContext) (F : NodeFinder) : NodeFinder :=
  {| LocToResolve := LocToResolve F;
     DeclContextStack := s;
     Result := Result F;
     ShorthandShadowedDecls := ShorthandShadowedDecls F |}.

Definition set_Result (r : option NodeFinderResult) (F : NodeFinder)
  : NodeFinder :=
  {| LocToResolve := LocToResolve F;
     DeclContextStack := DeclContextStack F;
     Result := r;
     ShorthandShadowedDecls := ShorthandShadowedDecls F |}.

Definition set_shadows (m : ShadowMap) (F : NodeFinder) : NodeFinder :=
  {| LocToResolve := LocToResolve F;
     DeclContextStack := DeclContextStack F;
     Result := Result F;
     ShorthandShadowedDecls := m |}.

Definition push_back (DC : DeclContext) (F : NodeFinder) : NodeFinder :=
  set_stack (DeclContextStack F ++ [DC]) F.

Inductive PreWalkAction := PreStop | PreSkipChildren | PreContinue.
Inductive PostWalkAction := PostStop | PostContinue.

(** [operator[]] of the map: an absent key is inserted with a null value,
    which is what the read then yields. *)
Definition shadow_index (m : ShadowMap) (k : ValueDecl)
  : option ValueDecl * ShadowMap :=
  match m !! decl_id k with
  | Some v => (v, m)
  | None => (None, <[decl_id k := None]> m)
  end.

(** The loop of [getShorthandShadowedDecls]; [None] when [fuel] iterations
    were not enough for it to finish. *)
Fixpoint shadow_loop (fuel : nat) (m : ShadowMap)
    (ShorthandShadowedDecl : option ValueDecl) (Result : list ValueDecl)
  : option (list ValueDecl * ShadowMap) :=
  match ShorthandShadowedDecl with
  | None => Some (Result, m)
  | Some d =>
      match fuel with
      | O => None
      | S fuel' =>
          let '(next, m') := shadow_index m d in
          shadow_loop fuel' m' next (Result ++ [d])
      end
  end.

Definition getShorthandShadowedDecls (fuel : nat) (m : ShadowMap)
    (ShadowingDecl : ValueDecl) : option (list ValueDecl * ShadowMap) :=
  let '(first, m') := shadow_index m ShadowingDecl in
  shadow_loop fuel m' first [].

Section Walker.
(** [NDEBUG]: when set, [assert] compiles to nothing. *)
Variable NDEBUG : bool.
Context `{SourceManager} `{ShorthandShadows}.

Definition assert (cond : bool) (a : Assertion) : result unit :=
  if NDEBUG || cond then Ok tt else Faulted (AssertionFailed a).

Definition getCurrentDeclContext (F : NodeFinder) : result DeclContext :=
  match last (DeclContextStack F) with
  | Some DC => Ok DC
  | None => Faulted EmptyVectorAccess
  end.

Definition rangeContainsLocToResolve (F : NodeFinder) (R : SourceRange)
  : bool :=
  containsRespectingReplacedRanges R (LocToResolve F).

(** [assert(back() == DC); pop_back()]. *)
Definition pop_back_expecting (DC : DeclContext) (F : NodeFinder)
  : result NodeFinder :=
  match last (DeclContextStack F) with
  | None => Faulted EmptyVectorAccess
  | Some top =>
      match assert (bool_decide (top = DC)) Assert_StackBackIsContext with
      | Faulted f => Faulted f
      | Ok _ => Ok (set_stack (removelast (DeclContextStack F)) F)
      end
  end.

(** The loop recording shorthand shadows:
    [assert(count(first) == 0); map[first] = second]. *)
Fixpoint recordShadows (l : list (ValueDecl * ValueDecl)) (m : ShadowMap)
  : result ShadowMap :=
  match l with
  | [] => Ok m
  | (first, second) :: l' =>
      match assert (bool_decide (m !! decl_id first = None))
              Assert_ShadowKeyIsFresh with
      | Faulted f => Faulted f
      | Ok _ => recordShadows l' (<[decl_id first := Some second]> m)
      end
  end.

Definition walkToDeclPre (D : Decl) (F : NodeFinder)
  : result (PreWalkAction * NodeFinder) :=
  if negb (rangeContainsLocToResolve F (decl_rangeIncludingAttrs D))
  then Ok (PreSkipChildren, F)
  else
    let F1 := match dyn_cast_DeclContext D with
              | Some newDC => push_back newDC F
              | None => F
              end in
    if negb (decl_loc D =? LocToResolve F1)
    then Ok (PreContinue, F1)
    else
      match dyn_cast_ValueDecl D with
      | Some VD =>
          if decl_hasName VD && negb (isa_ParamDecl D)
          then
            match assert (bool_decide (Result F1 = None))
                    Assert_ResultIsNull with
            | Faulted f => Faulted f
            | Ok _ =>
                Ok (PreStop, set_Result (Some (NodeFinderDeclResult VD)) F1)
            end
          else Ok (PreContinue, F1)
      | None => Ok (PreContinue, F1)
      end.

Definition walkToDeclPost (D : Decl) (F : NodeFinder)
  : result (PostWalkAction * NodeFinder) :=
  match dyn_cast_DeclContext D with
  | Some newDC =>
      match pop_back_expecting newDC F with
      | Faulted f => Faulted f
      | Ok F1 => Ok (PostContinue, F1)
      end
  | None => Ok (PostContinue, F)
  end.

Definition walkToExprPre (E : Expr) (F : NodeFinder)
  : result (PreWalkAction * NodeFinder) :=
  let F1 := match dyn_cast_ClosureExpr E with
            | Some closure => push_back closure F
            | None => F
            end in
  let shadowed :=
    if isa_CaptureListExpr E
    then
      match getCurrentDeclContext F1 with
      | Faulted f => Faulted f
      | Ok DC =>
          match recordShadows (getShorthandShadows_CaptureList E DC)
                  (ShorthandShadowedDecls F1) with
          | Faulted f => Faulted f
          | Ok m => Ok (set_shadows m F1)
          end
      end
    else Ok F1 in
  match shadowed with
  | Faulted f => Faulted f
  | Ok F2 =>
      if negb (expr_loc E =? LocToResolve F2)
      then Ok (PreContinue, F2)
      else
        match expr_kind E with
        | EK_DeclRef | EK_UnresolvedDot | EK_UnresolvedDeclRef =>
            match assert (bool_decide (Result F2 = None))
                    Assert_ResultIsNull with
            | Faulted f => Faulted f
            | Ok _ =>
                match getCurrentDeclContext F2 with
                | Faulted f => Faulted f
                | Ok DC =>
                    Ok (PreStop,
                        set_Result (Some (NodeFinderExprResult E DC)) F2)
                end
            end
        | _ => Ok (PreContinue, F2)
        end
  end.

Definition walkToExprPost (E : Expr) (F : NodeFinder)
  : result (PostWalkAction * NodeFinder) :=
  match dyn_cast_ClosureExpr E with
  | Some closure =>
      match pop_back_expecting closure F with
      | Faulted f => Faulted f
      | Ok F1 => Ok (PostContinue, F1)
      end
  | None => Ok (PostContinue, F)
  end.

Definition walkToStmtPre (St : Stmt) (F : NodeFinder)
  : result (PreWalkAction * NodeFinder) :=
  if isa_LabeledConditionalStmt St
  then
    match getCurrentDeclContext F with
    | Faulted f => Faulted f
    | Ok DC =>
        match recordShadows (getShorthandShadows_CondStmt St DC)
                (ShorthandShadowedDecls F) with
        | Faulted f => Faulted f
        | Ok m => Ok (PreContinue, set_shadows m F)
        end
    end
  else Ok (PreContinue, F).

(** [ASTWalker]'s default for a hook the finder does not override. *)
Definition walkToStmtPost (St : Stmt) (F : NodeFinder)
  : result (PostWalkAction * NodeFinder) :=
  Ok (PostContinue, F).

End Walker.

(** ** The traversal *)

(** Modelled from the spec: the traversal that drives the hooks
    ([ASTWalker], entered through [SourceFile::walk]) is not under [src/].
    It is a depth-first pre-order traversal with a pre and a post hook per
    node: a pre hook that answers "skip" has the node's subtree skipped and
    the walk goes on with the next sibling; a pre or post hook that answers
    "stop" stops the walk immediately, no further hook being run; otherwise
    the children are visited in order and then the post hook runs.  The
    boolean is [true] when the walk was stopped. *)
Definition traverse
    (Pre : NodeFinder -> result (PreWalkAction * NodeFinder))
    (VisitChildren : NodeFinder -> result (bool * NodeFinder))
    (WalkPost : NodeFinder -> result (PostWalkAction * NodeFinder))
    (F : NodeFinder) : result (bool * NodeFinder) :=
  match Pre F with
  | Faulted f => Faulted f
  | Ok (PreStop, F1) => Ok (true, F1)
  | Ok (PreSkipChildren, F1) => Ok (false, F1)
  | Ok (PreContinue, F1) =>
      match VisitChildren F1 with
      | Faulted f => Faulted f
      | Ok (true, F2) => Ok (true, F2)
      | Ok (false, F2) =>
          match WalkPost F2 with
          | Faulted f => Faulted f
          | Ok (PostStop, F3) => Ok (true, F3)
          | Ok (PostContinue, F3) => Ok (false, F3)
          end
      end
  end.

(** Modelled from the spec: visiting a sequence of nodes in order, until
    one of the visits stops the walk (part of the traversal, which is not
    under [src/]). *)
Definition walkAll (walk : ASTNode -> NodeFinder -> result (bool * NodeFinder))
  : list ASTNode -> NodeFinder -> result (bool * NodeFinder) :=
  fix go (l : list ASTNode) (F : NodeFinder) :=
    match l with
    | [] => Ok (false, F)
    | n :: l' =>
        match walk n F with
        | Faulted f => Faulted f
        | Ok (true, F1) => Ok (true, F1)
        | Ok (false, F1) => go l' F1
        end
    end.

Section Resolve.
Variable NDEBUG : bool.
Context `{SourceManager} `{ShorthandShadows}.

(** Modelled from the spec: the traversal of one node (not under
    [src/]), calling the finder's hooks for the node's kind. *)
Fixpoint walkNode (n : ASTNode) : NodeFinder -> result (bool * NodeFinder) :=
  match n with
  | DeclNode D cs =>
      traverse (walkToDeclPre NDEBUG D) (walkAll walkNode cs)
        (walkToDeclPost NDEBUG D)
  | ExprNode E cs =>
      traverse (walkToExprPre NDEBUG E) (walkAll walkNode cs)
        (walkToExprPost NDEBUG E)
  | StmtNode St cs =>
      traverse (walkToStmtPre NDEBUG St) (walkAll walkNode cs)
        (walkToStmtPost St)
  end.

(** [NodeFinder::resolve]: [SrcFile.walk( *this)]. *)
Definition resolve (SrcFile : SourceFile) (F : NodeFinder)
  : result (bool * NodeFinder) :=
  walkAll walkNode (sf_items SrcFile) F.

End Resolve.

(** ** On-demand type checking *)

(** What the solver reports for the reference at an expression:
    [getSelectedOverloadInfo]'s [Value] and [BaseTy]. *)
Record SelectedOverloadInfo := mkOverloadInfo {
  Value : option ValueDecl;
  BaseTy : option Ty
}.

(** The type checker and constraint solver this file calls into.
    [ASTState] is the state of the annotations they keep on the tree.
    [typeCheckASTNodeAtLoc] also yields the solutions it reports to the
    solution callback of the AST context.  [getSelectedOverloadInfo S E] is
    the overload selected in [S] at the callee locator of [E], and
    [memberRefBase S E] the expression anchoring the member-reference base
    of [E], if it is an expression. *)
Class TypeChecker := {
  ASTState : Type;
  Solution : Type;
  closureType : ASTState -> DeclContext -> option Ty;
  interfaceType : ASTState -> ValueDecl -> option Ty;
  typeCheckASTNodeAtLoc :
    DeclContext -> SourceLoc -> ASTState -> ASTState * list Solution;
  getPropertyWrapperBackingPropertyType : Decl -> ASTState -> ASTState;
  visitEmittedAccessors : Decl -> ASTState -> ASTState;
  getSelectedOverloadInfo : Solution -> Expr -> SelectedOverloadInfo;
  memberRefBase : Solution -> Expr -> option Expr;
  isDynamicRef : Expr -> ValueDecl -> Solution -> bool
}.

(** The storage of the callback's [SmallVector<CursorInfoDeclReference, 1>]:
    [reallocatesAt n] tells whether [push_back] on a vector that holds [n]
    elements finds it at capacity and moves the elements to a new buffer,
    which invalidates every [ArrayRef] into the old one.  The vector is only
    ever appended to, so its capacity is a function of its size. *)
Class SmallVectorGrowth := {
  reallocatesAt : nat -> bool
}.

(** How a call ends: it returns, it loops for longer than the fuel given,
    or it faults. *)
Inductive Run (A : Type) :=
| Returned (a : A)
| RanOutOfFuel
| Aborted (f : Fault).
Arguments Returned {A} a.
Arguments RanOutOfFuel {A}.
Arguments Aborted {A} f.

Section TypeChecking.
Context `{TypeChecker} `{SmallVectorGrowth}.

(** The requests a run makes to the type checker, in order. *)
Inductive TypeCheckRequest :=
| Req_typeCheckASTNodeAtLoc (DC : DeclContext) (Loc : SourceLoc)
    (reported : list Solution)
| Req_getPropertyWrapperBackingPropertyType (VarD : Decl)
| Req_visitEmittedAccessors (VarD : Decl).

Definition isTypeCheckASTNodeAtLoc (r : TypeCheckRequest) : bool :=
  match r with
  | Req_typeCheckASTNodeAtLoc _ _ _ => true
  | _ => false
  end.

Definition reportedSolutions (log : list TypeCheckRequest) : list Solution :=
  flat_map (fun r => match r with
                     | Req_typeCheckASTNodeAtLoc _ _ sols => sols
                     | _ => []
                     end) log.

(** Computations that read and update the annotations and log their
    requests. *)
Definition TC (A : Type) : Type :=
  ASTState -> A * ASTState * list TypeCheckRequest.

Definition tc_ret {A} (a : A) : TC A := fun st => (a, st, []).

Definition tc_bind {A B} (m : TC A) (k : A -> TC B) : TC B :=
  fun st =>
    let '(a, st1, log1) := m st in
    let '(b, st2, log2) := k a st1 in
    (b, st2, log1 ++ log2).

Definition tc_get : TC ASTState := fun st => (st, st, []).

Definition tc_typeCheckASTNodeAtLoc (DC : DeclContext) (Loc : SourceLoc)
  : TC unit :=
  fun st =>
    let '(st1, sols) := typeCheckASTNodeAtLoc DC Loc st in
    (tt, st1, [Req_typeCheckASTNodeAtLoc DC Loc sols]).

Definition tc_getPropertyWrapperBackingPropertyType (VarD : Decl) : TC unit :=
  fun st =>
    (tt, getPropertyWrapperBackingPropertyType VarD st,
     [Req_getPropertyWrapperBackingPropertyType VarD]).

Definition tc_visitEmittedAccessors (VarD : Decl) : TC unit :=
  fun st =>
    (tt, visitEmittedAccessors VarD st, [Req_visitEmittedAccessors VarD]).

Notation "x <- m ;; k" := (tc_bind m (fun x => k))
  (at level 100, m at next level, right associativity).
Notation "m ;;; k" := (tc_bind m (fun _ => k))
  (at level 100, right associativity).

(** The loop [while (DC->getParent())] of
    [typeCheckDeclAndParentClosures]. *)
Fixpoint typeCheckParentClosures (DC : DeclContext) : TC unit :=
  match DC with
  | ModuleContext _ => tc_ret tt
  | NestedContext _ _ Parent =>
      (match dyn_cast_AbstractClosureExpr DC with
       | Some (_, ClosureLoc) =>
           st <- tc_get ;;
           match closureType st DC with
           | None => tc_typeCheckASTNodeAtLoc Parent ClosureLoc
           | Some _ => tc_ret tt
           end
       | None => tc_ret tt
       end) ;;;
      typeCheckParentClosures Parent
  end.

Definition typeCheckDeclAndParentClosures (VD : option ValueDecl) : TC unit :=
  match VD with
  | None => tc_ret tt
  | Some VD =>
      typeCheckParentClosures (decl_context VD) ;;;
      (st <- tc_get ;;
       match interfaceType st VD with
       | None => tc_typeCheckASTNodeAtLoc (decl_context VD) (decl_loc VD)
       | Some _ => tc_ret tt
       end) ;;;
      match dyn_cast_VarDecl VD with
      | Some VarD =>
          (if decl_hasAttachedPropertyWrapper VarD
           then tc_getPropertyWrapperBackingPropertyType VarD
           else tc_ret tt) ;;;
          tc_visitEmittedAccessors VarD
      | None => tc_ret tt
      end
  end.

(** ** Solver-based expression analysis *)

Record CursorInfoDeclReference := mkReference {
  BaseType : option Ty;
  IsDynamicRef : bool;
  ReferencedDecl : ValueDecl
}.

(** [sawSolutionImpl], on the callback's [Results]. *)
Definition sawSolutionImpl (ResolveExpr : Expr) (S : Solution)
    (Results : list CursorInfoDeclReference)
  : list CursorInfoDeclReference :=
  let OverloadInfo := getSelectedOverloadInfo S ResolveExpr in
  match Value OverloadInfo with
  | None => Results
  | Some V =>
      let IsDynamicRef :=
        match memberRefBase S ResolveExpr with
        | Some BaseExpr => isDynamicRef BaseExpr V S
        | None => false
        end in
      Results ++ [mkReference (BaseTy OverloadInfo) IsDynamicRef V]
  end.

(** The solutions reported while the callback is installed, each passed
    to [sawSolutionImpl]. *)
Definition sawSolutions (ResolveExpr : Expr) (sols : list Solution)
    (Results : list CursorInfoDeclReference)
  : list CursorInfoDeclReference :=
  fold_left (fun R S => sawSolutionImpl ResolveExpr S R) sols Results.

(** ** The answer *)

Record ResolvedValueRefCursorInfo := mkCursorInfo {
  ci_SrcFile : SourceFile;
  ci_Loc : SourceLoc;
  ci_ValueD : ValueDecl;
  ci_CtorTyRef : option nat;
  ci_ExtTyRef : option nat;
  ci_IsRef : bool;
  ci_Ty : option Ty;
  ci_ContainerType : option Ty;
  ci_CustomAttrRef : option nat;
  ci_IsKeywordArgument : bool;
  ci_IsDynamic : bool;
  ci_ReceiverTypes : list NominalTypeDecl;
  ci_ShorthandShadowedDecls : list ValueDecl
}.

(** A [ResolvedCursorInfoPtr]; [None] is the null pointer. *)
Definition ResolvedCursorInfoPtr := option ResolvedValueRefCursorInfo.

Definition getDeclResult (fuel : nat) (RequestedLoc : SourceLoc)
    (DeclResult : ValueDecl) (SrcFile : SourceFile) (Finder : NodeFinder)
    (st : ASTState) : Run (ResolvedCursorInfoPtr * ASTState) :=
  let '(_, st1, _) := typeCheckDeclAndParentClosures (Some DeclResult) st in
  match getShorthandShadowedDecls fuel (ShorthandShadowedDecls Finder)
          DeclResult with
  | None => RanOutOfFuel
  | Some (Shadowed, _) =>
      Returned
        (Some {| ci_SrcFile := SrcFile; ci_Loc := RequestedLoc;
                 ci_ValueD := DeclResult;
                 ci_CtorTyRef := None; ci_ExtTyRef := None;
                 ci_IsRef := false; ci_Ty := None;
                 ci_ContainerType := None; ci_CustomAttrRef := None;
                 ci_IsKeywordArgument := false; ci_IsDynamic := false;
                 ci_ReceiverTypes := [];
                 ci_ShorthandShadowedDecls := Shadowed |}, st1)
  end.

(** The receiver types of a reference (the [ReceiverTypes] computed in
    [getExprResult]). *)
Definition receiverTypesOf (Res : CursorInfoDeclReference)
  : list NominalTypeDecl :=
  match IsDynamicRef Res, BaseType Res with
  | true, Some BaseType =>
      match getAnyNominal BaseType with
      | Some ReceiverType => [ReceiverType]
      | None =>
          match getAs_AnyMetatypeType BaseType with
          | Some InstanceType =>
              match getAnyNominal InstanceType with
              | Some ReceiverType => [ReceiverType]
              | None => []
              end
          | None => []
          end
      end
  | _, _ => []
  end.

(** Whether one of the [push_back]s that take the vector from [n] to
    [n'] elements reallocates. *)
Definition pushesReallocate (n n' : nat) : bool :=
  existsb reallocatesAt (seq n (n' - n)).

(** The loop [for (auto Info : Callback.getResults())] that type checks
    each referenced declaration.  [getResults] is evaluated once, before
    the first iteration: the loop walks an [ArrayRef] into the buffer that
    [Results] had then, and [Infos] are its entries still to be read.  The
    callback is still installed, so the solutions these checks report reach
    [sawSolutionImpl] and are pushed onto [Results].  [moved] tells whether
    such a push has reallocated [Results] since the loop began; the next
    entry is then read from a buffer that is gone.  Each entry is copied
    before the body runs, and the end of the range is found by comparing
    pointers, so only a further entry is read from the old buffer. *)
Fixpoint typeCheckReferencedDecls (ResolveExpr : Expr)
    (Infos : list CursorInfoDeclReference) (moved : bool)
    (Results : list CursorInfoDeclReference) (st : ASTState)
  : Run (list CursorInfoDeclReference * ASTState) :=
  match Infos with
  | [] => Returned (Results, st)
  | Info :: Infos' =>
      if moved then Aborted DanglingArrayRefRead
      else
        let '(_, st1, log) :=
          typeCheckDeclAndParentClosures (Some (ReferencedDecl Info)) st in
        let Results' :=
          sawSolutions ResolveExpr (reportedSolutions log) Results in
        typeCheckReferencedDecls ResolveExpr Infos'
          (pushesReallocate (length Results) (length Results'))
          Results' st1
  end.

(** The callback's [Results] once the statement containing [E] has been
    type checked. *)
Definition collectResults (E : Expr) (DC : DeclContext) (st : ASTState)
  : list CursorInfoDeclReference * ASTState :=
  let '(st1, sols) := typeCheckASTNodeAtLoc DC (expr_loc E) st in
  (sawSolutions E sols [], st1).

Definition getExprResult (fuel : nat) (RequestedLoc : SourceLoc)
    (E : Expr) (DC : DeclContext) (SrcFile : SourceFile)
    (Finder : NodeFinder) (st : ASTState)
  : Run (ResolvedCursorInfoPtr * ASTState) :=
  let '(Results1, st1) := collectResults E DC st in
  match Results1 with
  | [] => Returned (None, st1)
  | _ :: _ =>
      match typeCheckReferencedDecls E Results1 false Results1 st1 with
      | Aborted f => Aborted f
      | RanOutOfFuel => RanOutOfFuel
      | Returned (Results2, st2) =>
          match Results2 with
          | [Res] =>
              match getShorthandShadowedDecls fuel
                      (ShorthandShadowedDecls Finder)
                      (ReferencedDecl Res) with
              | None => RanOutOfFuel
              | Some (Shadowed, _) =>
                  Returned
                    (Some {| ci_SrcFile := SrcFile; ci_Loc := RequestedLoc;
                             ci_ValueD := ReferencedDecl Res;
                             ci_CtorTyRef := None; ci_ExtTyRef := None;
                             ci_IsRef := true; ci_Ty := None;
                             ci_ContainerType := BaseType Res;
                             ci_CustomAttrRef := None;
                             ci_IsKeywordArgument := false;
                             ci_IsDynamic := IsDynamicRef Res;
                             ci_ReceiverTypes := receiverTypesOf Res;
                             ci_ShorthandShadowedDecls := Shadowed |}, st2)
              end
          | _ => Returned (None, st2)
          end
      end
  end.

End TypeChecking.

(** ** doneParsing *)

Section DoneParsing.
Variable NDEBUG : bool.
Context `{SourceManager} `{ShorthandShadows} `{TypeChecker}
  `{SmallVectorGrowth}.

(** [doneParsing]: the calls made to [Consumer.handleResults], in order,
    and the annotations left on the tree. *)
Definition doneParsing (fuel : nat) (RequestedLoc : SourceLoc)
    (SrcFile : option SourceFile) (st : ASTState)
  : Run (list ResolvedCursorInfoPtr * ASTState) :=
  match SrcFile with
  | None => Returned ([], st)
  | Some SF =>
      match resolve NDEBUG SF (NodeFinder_new SF RequestedLoc) with
      | Faulted f => Aborted f
      | Ok (_, Finder) =>
          match Result Finder with
          | None => Returned ([], st)
          | Some (NodeFinderDeclResult VD) =>
              match getDeclResult fuel RequestedLoc VD SF Finder st with
              | Returned (CursorInfo, st') => Returned ([CursorInfo], st')
              | RanOutOfFuel => RanOutOfFuel
              | Aborted f => Aborted f
              end
          | Some (NodeFinderExprResult E DC) =>
              match getExprResult fuel RequestedLoc E DC SF Finder st with
              | Returned (CursorInfo, st') => Returned ([CursorInfo], st')
              | RanOutOfFuel => RanOutOfFuel
              | Aborted f => Aborted f
              end
          end
      end
  end.

End DoneParsing.

(** ** The shadow map as a relation *)

(** [reaches m k k']: following the map from the declaration with identity
    [k] for one or more steps arrives at the one with identity [k']. *)
Inductive reaches (m : ShadowMap) : nat -> nat -> Prop :=
| reaches_step k Sh :
    m !! k = Some (Some Sh) -> reaches m k (decl_id Sh)
| reaches_more k Sh k' :
    m !! k = Some (Some Sh) -> reaches m (decl_id Sh) k' -> reaches m k k'.

Definition acyclic (m : ShadowMap) : Prop := forall k, ~ reaches m k k.

(** [shadow_chain m k l]: [l] lists what the declaration with identity [k]
    shadows, the directly shadowed declaration first, then what that one
    shadows, and so on until the map has no (or a null) entry. *)
Inductive shadow_chain (m : ShadowMap) : nat -> list ValueDecl -> Prop :=
| chain_absent k : m !! k = None -> shadow_chain m k []
| chain_null k : m !! k = Some None -> shadow_chain m k []
| chain_next k Sh l :
    m !! k = Some (Some Sh) ->
    shadow_chain m (decl_id Sh) l ->
    shadow_chain m k (Sh :: l).

(** ** The match rules, as the specification words them *)

(** A declaration carries a name: it is a value declaration and has one. *)
Definition carriesName (D : Decl) : bool :=
  isValueDeclKind (decl_kind D) && decl_hasName D.

(** A declaration matches when its name-introducing location equals the
    target position, it carries a name and it is not a parameter. *)
Definition matchRule_decl (Loc : SourceLoc) (D : Decl) : bool :=
  (decl_loc D =? Loc) && carriesName D && negb (isa_ParamDecl D).

(** The reportable kinds: identifier reference, unresolved member access
    and unresolved-name reference. *)
Definition isReportableExprKind (k : ExprKind) : bool :=
  match k with
  | EK_DeclRef | EK_UnresolvedDot | EK_UnresolvedDeclRef => true
  | _ => false
  end.

(** An expression matches when its anchor location equals the target
    position and its kind is reportable. *)
Definition matchRule_expr (Loc : SourceLoc) (E : Expr) : bool :=
  (expr_loc E =? Loc) && isReportableExprKind (expr_kind E).

(** The finder once it has entered a declaration (an expression): the
    context the node introduces, if any, is on the stack. *)
Definition enterDecl (D : Decl) (F : NodeFinder) : NodeFinder :=
  match dyn_cast_DeclContext D with
  | Some newDC => push_back newDC F
  | None => F
  end.

Definition enterExpr (E : Expr) (F : NodeFinder) : NodeFinder :=
  match dyn_cast_ClosureExpr E with
  | Some closure => push_back closure F
  | None => F
  end.

(** ** What the walk is expected to find *)

(** A node the finder may report. *)
Inductive Candidate :=
| CandidateDecl (D : Decl)
| CandidateExpr (E : Expr).

Definition isMatch (Loc : SourceLoc) (c : Candidate) : bool :=
  match c with
  | CandidateDecl D => matchRule_decl Loc D
  | CandidateExpr E => matchRule_expr Loc E
  end.

(** The first result that a function has on the elements of a list. *)
Definition firstSome {A B} (f : A -> option B) : list A -> option B :=
  fix go l :=
    match l with
    | [] => None
    | x :: l' =>
        match f x with
        | Some b => Some b
        | None => go l'
        end
    end.

Section Entered.
Context `{SourceManager}.
Variable Loc : SourceLoc.

(** The declarations and expressions of a tree in depth-first pre-order,
    leaving out the subtree of every declaration whose source range does
    not contain the position. *)
Fixpoint enteredNodes (n : ASTNode) : list Candidate :=
  match n with
  | DeclNode D cs =>
      if containsRespectingReplacedRanges (decl_rangeIncludingAttrs D) Loc
      then CandidateDecl D :: flat_map enteredNodes cs
      else []
  | ExprNode E cs => CandidateExpr E :: flat_map enteredNodes cs
  | StmtNode _ cs => flat_map enteredNodes cs
  end.

(** The first of these nodes that matches the position. *)
Definition firstMatch (items : list ASTNode) : option Candidate :=
  find (isMatch Loc) (flat_map enteredNodes items).

(** The contexts introduced on the way down to the first match of a tree,
    outermost first: those of the declarations and closures around the
    match, and the one of the matching node itself when it introduces one.
    [None] when no node that the walk enters matches. *)
Fixpoint contextsToMatch (n : ASTNode) : option (list DeclContext) :=
  match n with
  | DeclNode D cs =>
      if containsRespectingReplacedRanges (decl_rangeIncludingAttrs D) Loc
      then
        if matchRule_decl Loc D
        then Some (option_list (dyn_cast_DeclContext D))
        else
          match firstSome contextsToMatch cs with
          | Some ctxs => Some (option_list (dyn_cast_DeclContext D) ++ ctxs)
          | None => None
          end
      else None
  | ExprNode E cs =>
      if matchRule_expr Loc E
      then Some (option_list (dyn_cast_ClosureExpr E))
      else
        match firstSome contextsToMatch cs with
        | Some ctxs => Some (option_list (dyn_cast_ClosureExpr E) ++ ctxs)
        | None => None
        end
  | StmtNode _ cs => firstSome contextsToMatch cs
  end.

End Entered.

(** The finder's result is the given candidate. *)
Definition resultIs (r : option NodeFinderResult) (c : option Candidate)
  : Prop :=
  match c with
  | None => r = None
  | Some (CandidateDecl D) => r = Some (NodeFinderDeclResult D)
  | Some (CandidateExpr E) => exists DC, r = Some (NodeFinderExprResult E DC)
  end.

(** What a walk that returns has done to the finder: [entered] are the
    nodes it was to enter, [b] tells whether it was stopped. *)
Definition walk_post (entered : list Candidate) (F : NodeFinder)
    (b : bool) (F' : NodeFinder) : Prop :=
  LocToResolve F' = LocToResolve F /\
  (b = false -> DeclContextStack F' = DeclContextStack F) /\
  (exists ctxs, DeclContextStack F' = DeclContextStack F ++ ctxs) /\
  b = bool_decide (is_Some (find (isMatch (LocToResolve F)) entered)) /\
  resultIs (Result F') (find (isMatch (LocToResolve F)) entered).

(** What a walk that returns has done to the stack: [path] are the
    contexts to its first match. *)
Definition stack_post (path : option (list DeclContext)) (F : NodeFinder)
    (b : bool) (F' : NodeFinder) : Prop :=
  match path with
  | Some ctxs =>
      b = true /\ DeclContextStack F' = DeclContextStack F ++ ctxs
  | None => b = false /\ DeclContextStack F' = DeclContextStack F
  end.

(** The only fault of a walk that starts without a result and with a
    context on the stack: a shadowing declaration recorded twice, in a
    build with assertions. *)
Definition only_shadow_fault (NDEBUG : bool) (f : Fault) : Prop :=
  f = AssertionFailed Assert_ShadowKeyIsFresh /\ NDEBUG = false.

(** All the declarations of a tree. *)
Fixpoint declarations (n : ASTNode) : list Decl :=
  match n with
  | DeclNode D cs => D :: flat_map declarations cs
  | ExprNode _ cs => flat_map declarations cs
  | StmtNode _ cs => flat_map declarations cs
  end.

(** The finder a walk leaves, and the depth of its stack. *)
Definition finderAfter (r : result (bool * NodeFinder)) : option NodeFinder :=
  match r with
  | Ok (_, F') => Some F'
  | Faulted _ => None
  end.

Definition resultAfter (r : result (bool * NodeFinder))
  : option NodeFinderResult :=
  F' ← finderAfter r; Result F'.

Definition stackAfter (r : result (bool * NodeFinder))
  : option (list DeclContext) :=
  DeclContextStack <$> finderAfter r.

(** ** Sample inputs *)

(** A source manager without replaced ranges: a range contains the
    locations from its start to its end. *)
Definition plainSourceManager : SourceManager :=
  {| containsRespectingReplacedRanges R L :=
       (Start R <=? L) && (L <=? End R) |}.

(** A tree without shorthand shadows. *)
Definition noShorthandShadows : ShorthandShadows :=
  {| getShorthandShadows_CaptureList _ _ := [];
     getShorthandShadows_CondStmt _ _ := [] |}.

Definition sampleModule : DeclContext := ModuleContext 0.
Definition sampleFileContext : DeclContext :=
  NestedContext DCK_FileUnit 1 sampleModule.

(** [func f() {}] with the name [f] at location 5. *)
Definition sampleFunc : Decl :=
  {| decl_id := 10; decl_kind := DK_Func; decl_hasName := true;
     decl_loc := 5; decl_rangeIncludingAttrs := mkRange 0 20;
     decl_context := sampleFileContext;
     decl_hasAttachedPropertyWrapper := false |}.

Definition sampleFuncFile : SourceFile :=
  {| sf_id := 1; sf_module := sampleModule;
     sf_items := [DeclNode sampleFunc []] |}.

(** A parameter [p] of [f], at location 7. *)
Definition sampleParam : Decl :=
  {| decl_id := 11; decl_kind := DK_Param; decl_hasName := true;
     decl_loc := 7; decl_rangeIncludingAttrs := mkRange 7 9;
     decl_context := NestedContext DCK_Decl 10 sampleFileContext;
     decl_hasAttachedPropertyWrapper := false |}.

(** [func f(p)]: the function with its parameter. *)
Definition sampleParamFile : SourceFile :=
  {| sf_id := 1; sf_module := sampleModule;
     sf_items := [DeclNode sampleFunc [DeclNode sampleParam []]] |}.

(** A member access at location 5 around a closure that declares a
    variable whose name is at location 5 as well. *)
Definition sampleDot : Expr :=
  {| expr_id := 20; expr_kind := EK_UnresolvedDot; expr_loc := 5;
     expr_parent := sampleFileContext |}.

Definition sampleClosure : Expr :=
  {| expr_id := 21; expr_kind := EK_Closure; expr_loc := 1;
     expr_parent := sampleFileContext |}.

Definition sampleVar : Decl :=
  {| decl_id := 22; decl_kind := DK_Var; decl_hasName := true;
     decl_loc := 5; decl_rangeIncludingAttrs := mkRange 3 8;
     decl_context :=
       NestedContext (DCK_AbstractClosureExpr 1) 21 sampleFileContext;
     decl_hasAttachedPropertyWrapper := false |}.

Definition sampleDotFile : SourceFile :=
  {| sf_id := 1; sf_module := sampleModule;
     sf_items :=
       [ExprNode sampleDot
          [ExprNode sampleClosure [DeclNode sampleVar []]]] |}.

(** A function whose name, at location 5, lies outside its source range,
    and a file that holds nothing else. *)
Definition sampleOutsideFunc : Decl :=
  {| decl_id := 12; decl_kind := DK_Func; decl_hasName := true;
     decl_loc := 5; decl_rangeIncludingAttrs := mkRange 10 20;
     decl_context := sampleFileContext;
     decl_hasAttachedPropertyWrapper := false |}.

Definition sampleOutsideFile : SourceFile :=
  {| sf_id := 1; sf_module := sampleModule;
     sf_items := [DeclNode sampleOutsideFunc []] |}.

(** A reference to a name, at location 5. *)
Definition sampleRef : Expr :=
  {| expr_id := 30; expr_kind := EK_DeclRef; expr_loc := 5;
     expr_parent := sampleFileContext |}.

(** ** Type checking: what the properties speak of *)

Section TypeCheckingNotions.
Context `{TypeChecker} `{SmallVectorGrowth}.

(** The annotations after a run, and the requests the run made. *)
Definition tc_state {A} (r : A * ASTState * list TypeCheckRequest) : ASTState :=
snd (fst r).

Definition tc_log {A} (r : A * ASTState * list TypeCheckRequest)
: list TypeCheckRequest :=
snd r.

(** Every closure among a context and its parents has a type. *)
Fixpoint parentClosuresTyped (st : ASTState) (DC : DeclContext) : Prop :=
match DC with
| ModuleContext _ => True
| NestedContext _ _ Parent =>
    (is_Some (dyn_cast_AbstractClosureExpr DC) ->
     is_Some (closureType st DC)) /\
    parentClosuresTyped st Parent
end.

(** The requests [typeCheckDeclAndParentClosures] makes for a variable
  whatever the annotations are. *)
Definition varDeclRequests (VD : ValueDecl) : list TypeCheckRequest :=
match dyn_cast_VarDecl VD with
| Some VarD =>
    (if decl_hasAttachedPropertyWrapper VarD
     then [Req_getPropertyWrapperBackingPropertyType VarD]
     else []) ++ [Req_visitEmittedAccessors VarD]
| None => []
end.

(** What the checks of the declarations that [Infos] refer to add to the
  callback's [Results], and the annotations they leave: the outcome of the
  loop of [getExprResult] when each of its reads finds its entry. *)
Fixpoint resultsAfterChecks (ResolveExpr : Expr)
  (Infos : list CursorInfoDeclReference)
  (Results : list CursorInfoDeclReference) (st : ASTState)
: list CursorInfoDeclReference * ASTState :=
match Infos with
| [] => (Results, st)
| Info :: Infos' =>
    let '(_, st1, log) :=
      typeCheckDeclAndParentClosures (Some (ReferencedDecl Info)) st in
    resultsAfterChecks ResolveExpr Infos'
      (sawSolutions ResolveExpr (reportedSolutions log) Results) st1
end.

(** The callback's [Results] when [getExprResult] counts them. *)
Definition finalResults (E : Expr) (DC : DeclContext) (st : ASTState)
: list CursorInfoDeclReference * ASTState :=
let '(Results1, st1) := collectResults E DC st in
match Results1 with
| [] => ([], st1)
| _ :: _ => resultsAfterChecks E Results1 Results1 st1
end.

(** The loop of [getExprResult] reads an entry from a buffer that
  [Results] has left. *)
Definition loopReadsDangling (E : Expr) (DC : DeclContext) (st : ASTState)
: bool :=
let '(Results1, st1) := collectResults E DC st in
match typeCheckReferencedDecls E Results1 false Results1 st1 with
| Aborted _ => true
| _ => false
end.

End TypeCheckingNotions.

(** The receiver type set as the specification words it: unwrap a
    metatype to its instance type, then take the nominal type; empty when
    there is none, when the reference is not dynamic or when it has no base
    type. *)
Definition spec_unwrapMetatype (T : Ty) : Ty :=
  match T with
  | MetatypeTy Instance => Instance
  | _ => T
  end.

Definition spec_receiverTypeSet (IsDynamic : bool) (Base : option Ty)
  : list NominalTypeDecl :=
  match Base with
  | Some T =>
      if IsDynamic
      then match getAnyNominal (spec_unwrapMetatype T) with
           | Some Nominal => [Nominal]
           | None => []
           end
      else []
  | None => []
  end.

(** ** Sample storage *)

(** A vector of inline capacity 1 whose capacity goes from [c] to
    [2 * c + 1] when it is full: capacities 1, 3, 7, 15, ... *)
Definition doublingGrowth : SmallVectorGrowth :=
  {| reallocatesAt n := (1 <=? n) && (2 ^ Nat.log2 (n + 1) =? n + 1) |}.

(** A vector that never moves its elements. *)
Definition amplePreallocation : SmallVectorGrowth :=
  {| reallocatesAt _ := false |}.

(** ** A sample type checker *)

(** The annotations are the locations checked so far: a closure or a
    declaration has a type once its location was checked.  A check
    [succeeds] or leaves the annotations as they are, and reports the
    solutions [solver] has for the location.  A solution is the overload it
    selects and whether the reference is dynamic. *)
Definition sampleTypeChecker (succeeds : bool)
    (solver : SourceLoc -> list (SelectedOverloadInfo * bool))
  : TypeChecker :=
  {| ASTState := list SourceLoc;
     Solution := SelectedOverloadInfo * bool;
     closureType st DC :=
       match dyn_cast_AbstractClosureExpr DC with
       | Some (_, L) =>
           if bool_decide (L ∈ st) then Some (StructuralTy 0) else None
       | None => None
       end;
     interfaceType st VD :=
       if bool_decide (decl_loc VD ∈ st) then Some (StructuralTy 1) else None;
     typeCheckASTNodeAtLoc DC L st :=
       (if succeeds then L :: st else st, solver L);
     getPropertyWrapperBackingPropertyType _ st := st;
     visitEmittedAccessors _ st := st;
     getSelectedOverloadInfo Sol _ := fst Sol;
     memberRefBase Sol E := if snd Sol then Some E else None;
     isDynamicRef _ _ Sol := snd Sol |}.

Definition noSolutions : SourceLoc -> list (SelectedOverloadInfo * bool) :=
  fun _ => [].

(** A class [C] (nominal declaration 40) with a method [m], and a second
    method [m] of another class. *)
Definition sampleMethod : Decl :=
  {| decl_id := 41; decl_kind := DK_Func; decl_hasName := true;
     decl_loc := 30; decl_rangeIncludingAttrs := mkRange 28 40;
     decl_context := NestedContext DCK_Decl 40 sampleFileContext;
     decl_hasAttachedPropertyWrapper := false |}.

Definition sampleOtherMethod : Decl :=
  {| decl_id := 43; decl_kind := DK_Func; decl_hasName := true;
     decl_loc := 50; decl_rangeIncludingAttrs := mkRange 48 60;
     decl_context := NestedContext DCK_Decl 42 sampleFileContext;
     decl_hasAttachedPropertyWrapper := false |}.

(** The solver finds one solution at location 5: a dynamic reference to
    [m] on the metatype of [C]. *)
Definition dynamicSolver : SourceLoc -> list (SelectedOverloadInfo * bool) :=
  fun L =>
    if L =? 5
    then [(mkOverloadInfo (Some sampleMethod)
             (Some (MetatypeTy (NominalTy 40))), true)]
    else [].

(** The solver finds two solutions at location 5, for two declarations. *)
Definition ambiguousSolver : SourceLoc -> list (SelectedOverloadInfo * bool) :=
  fun L =>
    if L =? 5
    then [(mkOverloadInfo (Some sampleMethod) None, false);
          (mkOverloadInfo (Some sampleOtherMethod) None, false)]
    else [].

(** Two overloads declared in a closure, at location 2, of the
    statement that holds the reference at location 5. *)
Definition sampleStatementClosure : DeclContext :=
  NestedContext (DCK_AbstractClosureExpr 2) 70 sampleFileContext.

Definition sampleLocalOverload : Decl :=
  {| decl_id := 71; decl_kind := DK_Func; decl_hasName := true;
     decl_loc := 3; decl_rangeIncludingAttrs := mkRange 3 4;
     decl_context := sampleStatementClosure;
     decl_hasAttachedPropertyWrapper := false |}.

Definition sampleOtherLocalOverload : Decl :=
  {| decl_id := 72; decl_kind := DK_Func; decl_hasName := true;
     decl_loc := 7; decl_rangeIncludingAttrs := mkRange 7 8;
     decl_context := sampleStatementClosure;
     decl_hasAttachedPropertyWrapper := false |}.

(** The solver finds two solutions for the statement, one for each
    overload.  The closure has no type until its parent is checked at the
    closure's location; that check solves the statement again and reports
    its two solutions again. *)
Definition resolvingAgainSolver
  : SourceLoc -> list (SelectedOverloadInfo * bool) :=
  fun L =>
    if (L =? 5) || (L =? 2)
    then [(mkOverloadInfo (Some sampleLocalOverload) None, false);
          (mkOverloadInfo (Some sampleOtherLocalOverload) None, false)]
    else [].

(** The solver finds one solution at location 5, in which no overload
    could be resolved. *)
Definition unresolvedSolver : SourceLoc -> list (SelectedOverloadInfo * bool) :=
  fun L => if L =? 5 then [(mkOverloadInfo None None, false)] else [].

(** A file whose only node is a reference at location 5. *)
Definition sampleRefFile : SourceFile :=
  {| sf_id := 1; sf_module := sampleModule;
     sf_items := [ExprNode sampleRef []] |}.

(** The answer expected for the dynamic reference to [m]. *)
Definition sampleDynamicAnswer : ResolvedValueRefCursorInfo :=
  {| ci_SrcFile := sampleRefFile; ci_Loc := 5; ci_ValueD := sampleMethod;
     ci_CtorTyRef := None; ci_ExtTyRef := None; ci_IsRef := true;
     ci_Ty := None;
     ci_ContainerType := Some (MetatypeTy (NominalTy 40));
     ci_CustomAttrRef := None; ci_IsKeywordArgument := false;
     ci_IsDynamic := true; ci_ReceiverTypes := [40];
     ci_ShorthandShadowedDecls := [] |}.

(** The finder once it has found the reference of [sampleRefFile]. *)
Definition sampleRefFinder : NodeFinder :=
  set_Result (Some (NodeFinderExprResult sampleRef sampleFileContext))
    (NodeFinder_new sampleRefFile 5).

(** Three nested bindings of one name: the innermost [x] shadows the
    middle one, which shadows the outermost. *)
Definition sampleOuterX : Decl :=
  {| decl_id := 50; decl_kind := DK_Var; decl_hasName := true;
     decl_loc := 60; decl_rangeIncludingAttrs := mkRange 58 65;
     decl_context := sampleFileContext;
     decl_hasAttachedPropertyWrapper := false |}.

Definition sampleMiddleX : Decl :=
  {| decl_id := 51; decl_kind := DK_Var; decl_hasName := true;
     decl_loc := 70; decl_rangeIncludingAttrs := mkRange 70 71;
     decl_context := sampleFileContext;
     decl_hasAttachedPropertyWrapper := false |}.

Definition sampleInnerX : Decl :=
  {| decl_id := 52; decl_kind := DK_Var; decl_hasName := true;
     decl_loc := 80; decl_rangeIncludingAttrs := mkRange 80 81;
     decl_context := sampleFileContext;
     decl_hasAttachedPropertyWrapper := false |}.

Definition sampleShadows : ShadowMap :=
  <[52 := Some sampleMiddleX]> (<[51 := Some sampleOuterX]> ∅).

(** The finder once it has found the function of [sampleFuncFile]. *)
Definition sampleFuncFinder : NodeFinder :=
  set_Result (Some (NodeFinderDeclResult sampleFunc))
    (push_back (NestedContext DCK_Decl 10 sampleFileContext)
       (NodeFinder_new sampleFuncFile 5)).

(** [if let x { print(x) }] below the outermost [x]: the statement's
    binding (the middle [x]) shadows the outermost one, and the [x] in the
    call, at location 90, refers to the binding. *)
Definition sampleIfStmt : Stmt := {| stmt_id := 60; stmt_kind := SK_If |}.

Definition sampleUse : Expr :=
  {| expr_id := 61; expr_kind := EK_DeclRef; expr_loc := 90;
     expr_parent := sampleFileContext |}.

Definition sampleShadowFile : SourceFile :=
  {| sf_id := 1; sf_module := sampleModule;
     sf_items :=
       [DeclNode sampleOuterX [];
        StmtNode sampleIfStmt
          [DeclNode sampleMiddleX [];
           StmtNode {| stmt_id := 62; stmt_kind := SK_Brace |}
             [ExprNode {| expr_id := 63; expr_kind := EK_Call;
                          expr_loc := 84; expr_parent := sampleFileContext |}
                [ExprNode sampleUse []]]]] |}.

Definition ifLetShadows : ShorthandShadows :=
  {| getShorthandShadows_CaptureList _ _ := [];
     getShorthandShadows_CondStmt St _ :=
       if stmt_id St =? 60 then [(sampleMiddleX, sampleOuterX)] else [] |}.

Definition shadowSolver : SourceLoc -> list (SelectedOverloadInfo * bool) :=
  fun L =>
    if L =? 90 then [(mkOverloadInfo (Some sampleMiddleX) None, false)]
    else [].

(** The answers handed to the consumer by a call that returns. *)
Definition answersOf {A} (r : Run (list ResolvedCursorInfoPtr * A))
  : option (list ResolvedCursorInfoPtr) :=
  match r with
  | Returned (answers, _) => Some answers
  | _ => None
  end.

(** ** Further notions and sample inputs *)

(** All the expressions of a tree. *)
Fixpoint expressions (n : ASTNode) : list Expr :=
  match n with
  | DeclNode _ cs => flat_map expressions cs
  | ExprNode E cs => E :: flat_map expressions cs
  | StmtNode _ cs => flat_map expressions cs
  end.

(** The context kept in the finder's result is the one on top of the
    stack: for an expression the context it was found in, for a
    declaration that is a context that very context. *)
Definition resultContextOnTop (F : NodeFinder) : Prop :=
  match Result F with
  | None => True
  | Some (NodeFinderExprResult _ DC) => last (DeclContextStack F) = Some DC
  | Some (NodeFinderDeclResult D) =>
      forall newDC, dyn_cast_DeclContext D = Some newDC ->
                    last (DeclContextStack F) = Some newDC
  end.

(** A conditional statement reported with the same shadowing declaration
    twice. *)
Definition duplicateShadows : ShorthandShadows :=
  {| getShorthandShadows_CaptureList _ _ := [];
     getShorthandShadows_CondStmt St _ :=
       if stmt_id St =? 60
       then [(sampleMiddleX, sampleOuterX); (sampleMiddleX, sampleInnerX)]
       else [] |}.

(** A map in which the innermost [x] is its own shadow two steps away. *)
Definition cyclicShadows : ShadowMap :=
  <[52 := Some sampleMiddleX]> (<[51 := Some sampleInnerX]> ∅).

Section TypeCheckingFurther.
Context `{TypeChecker}.

(** The reference [sawSolutionImpl] makes of a solution, if the solution
    resolved the overload. *)
Definition solutionReference (ResolveExpr : Expr) (Sol : Solution)
  : option CursorInfoDeclReference :=
  match Value (getSelectedOverloadInfo Sol ResolveExpr) with
  | None => None
  | Some V =>
      Some (mkReference (BaseTy (getSelectedOverloadInfo Sol ResolveExpr))
              (match memberRefBase Sol ResolveExpr with
               | Some BaseExpr => isDynamicRef BaseExpr V Sol
               | None => false
               end) V)
  end.

(** A context and its parents, innermost first. *)
Fixpoint contextChain (DC : DeclContext) : list DeclContext :=
  match DC with
  | ModuleContext _ => [DC]
  | NestedContext _ _ Parent => DC :: contextChain Parent
  end.

(** A request [typeCheckDeclAndParentClosures] may make for a declaration:
    a type check of the declaration's context at the declaration's
    location, or of the parent of an enclosing closure at the closure's
    location; for a variable, the backing type of its attached property
    wrapper and the visit of its accessors. *)
Definition requestFor (VD : ValueDecl) (r : TypeCheckRequest) : Prop :=
  match r with
  | Req_typeCheckASTNodeAtLoc DC Loc _ =>
      (DC = decl_context VD /\ Loc = decl_loc VD) \/
      (exists id,
         In (NestedContext (DCK_AbstractClosureExpr Loc) id DC)
           (contextChain (decl_context VD)))
  | Req_getPropertyWrapperBackingPropertyType VarD =>
      VarD = VD /\ isVarDeclKind (decl_kind VD) = true /\
      decl_hasAttachedPropertyWrapper VD = true
  | Req_visitEmittedAccessors VarD =>
      VarD = VD /\ isVarDeclKind (decl_kind VD) = true
  end.

(** The types present in [st] are present in [st']. *)
Definition typesKept (st st' : ASTState) : Prop :=
  (forall DC, is_Some (closureType st DC) -> is_Some (closureType st' DC)) /\
  (forall VD, is_Some (interfaceType st VD) ->
              is_Some (interfaceType st' VD)).

(** A type checker that keeps the types it has given and gives a type to
    what it is asked to check: to a closure when its parent is checked at
    the closure's location, to a declaration when its context is checked
    at the declaration's location. *)
Definition cooperative : Prop :=
  (forall DC Loc st, typesKept st (fst (typeCheckASTNodeAtLoc DC Loc st))) /\
  (forall D st, typesKept st (getPropertyWrapperBackingPropertyType D st)) /\
  (forall D st, typesKept st (visitEmittedAccessors D st)) /\
  (forall Loc id Parent st,
     is_Some (closureType (fst (typeCheckASTNodeAtLoc Parent Loc st))
                (NestedContext (DCK_AbstractClosureExpr Loc) id Parent))) /\
  (forall VD st,
     is_Some (interfaceType
                (fst (typeCheckASTNodeAtLoc (decl_context VD) (decl_loc VD)
                        st)) VD)).

End TypeCheckingFurther.

(** * Properties *)

(** Induction on syntax trees, with the children covered. *)
Lemma ASTNode_tree_ind (P : ASTNode -> Prop) :
  (forall D cs, Forall P cs -> P (DeclNode D cs)) ->
  (forall E cs, Forall P cs -> P (ExprNode E cs)) ->
  (forall St cs, Forall P cs -> P (StmtNode St cs)) ->
  forall n, P n.
Proof.
  intros HD HE HS.
  fix IH 1.
  intros [D cs | E cs | St cs];
    [apply HD | apply HE | apply HS];
    (induction cs as [| c cs IHcs]; [constructor | constructor; [apply IH | exact IHcs]]).
Qed.

(** ** The shadow chain *)

Section ShadowChain.
Implicit Types (m : ShadowMap) (k : nat) (l : list ValueDecl).

Lemma reaches_trans m k1 k2 k3 :
  reaches m k1 k2 -> reaches m k2 k3 -> reaches m k1 k3.
Proof.
  induction 1 as [k Sh Hk | k Sh k' Hk _ IH]; intros H23.
  - eapply reaches_more; eauto.
  - eapply reaches_more; eauto.
Qed.

Lemma shadow_chain_reaches m k l x :
  shadow_chain m k l -> x ∈ decl_id <$> l -> reaches m k x.
Proof.
  induction 1 as [k Hk | k Hk | k Sh l Hk _ IH]; simpl.
  - intros Hx. by apply elem_of_nil in Hx.
  - intros Hx. by apply elem_of_nil in Hx.
  - intros [-> | Hx]%elem_of_cons.
    + by apply reaches_step.
    + eapply reaches_more; eauto.
Qed.

Lemma shadow_chain_NoDup m k l :
  acyclic m -> shadow_chain m k l ->
  NoDup (decl_id <$> l) /\ k ∉ decl_id <$> l.
Proof.
  intros Hac. induction 1 as [k Hk | k Hk | k Sh l Hk Hch [IHnd IHnot]]; simpl.
  - split; [constructor | apply not_elem_of_nil].
  - split; [constructor | apply not_elem_of_nil].
  - split.
    + by constructor.
    + intros [-> | Hx]%elem_of_cons.
      * apply (Hac (decl_id Sh)). by apply reaches_step.
      * apply (Hac k). eapply reaches_more; [exact Hk |].
        eapply shadow_chain_reaches; eauto.
Qed.

Lemma shadow_chain_functional m k l1 l2 :
  shadow_chain m k l1 -> shadow_chain m k l2 -> l1 = l2.
Proof.
  intros H1. revert l2.
  induction H1 as [k Hk | k Hk | k Sh l Hk _ IH]; intros l2 H2;
    inversion H2 as [? Hk2 | ? Hk2 | ? Sh2 l2' Hk2 Hch2]; subst;
    try congruence.
  assert (Sh2 = Sh) as -> by congruence.
  f_equal. by apply IH.
Qed.

(** The loop, for a map without cycles: [V] holds the identities already
    passed, each of which reaches the current declaration. *)
Lemma shadow_loop_finishes fuel : forall m cur acc (V : gset nat),
  acyclic m ->
  V ⊆ dom m ->
  size m + 1 <= fuel + size V ->
  (forall d v, cur = Some d -> v ∈ V -> reaches m v (decl_id d)) ->
  exists l m',
    shadow_loop fuel m cur acc = Some (acc ++ l, m') /\
    match cur with
    | None => l = []
    | Some d => exists l', l = d :: l' /\ shadow_chain m (decl_id d) l'
    end.
Proof.
  induction fuel as [| fuel IH]; intros m cur acc V Hac HV Hfuel Hreach.
  - destruct cur as [d |].
    + exfalso.
      assert (size V <= size (dom m)) by by apply subseteq_size.
      rewrite size_dom in H. lia.
    + exists [], m. simpl. by rewrite app_nil_r.
  - destruct cur as [d |]; [| exists [], m; simpl; by rewrite app_nil_r].
    simpl. unfold shadow_index.
    destruct (m !! decl_id d) as [[Sh |] |] eqn:Hd.
    + assert (decl_id d ∉ V) as HdV.
      { intros Hin. apply (Hac (decl_id d)). by eapply Hreach. }
      assert ({[decl_id d]} ∪ V ⊆ dom m) as HV'.
      { apply union_subseteq. split; [| done].
        apply singleton_subseteq_l, elem_of_dom. by rewrite Hd. }
      assert (size m + 1 <= fuel + size ({[decl_id d]} ∪ V)) as Hfuel'.
      { rewrite size_union; [| by apply disjoint_singleton_l].
        rewrite size_singleton. lia. }
      assert (forall d' v, Some Sh = Some d' -> v ∈ {[decl_id d]} ∪ V ->
                           reaches m v (decl_id d')) as Hreach'.
      { intros d' v [= <-] [Hv | Hv]%elem_of_union.
        - apply elem_of_singleton in Hv as ->. by apply reaches_step.
        - eapply reaches_trans; [by eapply Hreach |]. by apply reaches_step. }
      destruct (IH m (Some Sh) (acc ++ [d]) _ Hac HV' Hfuel' Hreach')
        as (l & m' & Hloop & l' & -> & Hch).
      exists (d :: Sh :: l'), m'. split.
      * by rewrite Hloop, <- app_assoc.
      * exists (Sh :: l'). split; [done |]. by eapply chain_next.
    + exists [d], m. split.
      * destruct fuel; simpl; done.
      * exists []. split; [done |]. by apply chain_null.
    + exists [d], (<[decl_id d := None]> m). split.
      * destruct fuel; simpl; done.
      * exists []. split; [done |]. by apply chain_absent.
Qed.

End ShadowChain.

(** A map along which some rank of the identities decreases has no
    cycle. *)
Lemma acyclic_by_rank (m : ShadowMap) (rank : nat -> nat) :
  (forall k Sh, m !! k = Some (Some Sh) -> rank (decl_id Sh) < rank k) ->
  acyclic m.
Proof.
  intros Hrank.
  assert (forall k k', reaches m k k' -> rank k' < rank k) as Hlt.
  { induction 1 as [k Sh Hk | k Sh k' Hk _ IH].
    - by apply Hrank.
    - specialize (Hrank k Sh Hk). lia. }
  intros k Hk. specialize (Hlt k k Hk). lia.
Qed.

(** C6.  For a shadow map without cycles and any declaration [D], the loop
    of [getShorthandShadowedDecls] finishes within [size m] iterations, and
    the list it returns is the chain of declarations [D] shadows, the
    innermost first; the chain has no duplicate entry and does not contain
    [D]. *)
Theorem getShorthandShadowedDecls_chain (m : ShadowMap) (D : ValueDecl)
    (fuel : nat) :
  acyclic m ->
  size m <= fuel ->
  exists chain m',
    getShorthandShadowedDecls fuel m D = Some (chain, m') /\
    shadow_chain m (decl_id D) chain /\
    NoDup (decl_id <$> chain) /\
    decl_id D ∉ decl_id <$> chain.
Proof.
  intros Hac Hfuel. unfold getShorthandShadowedDecls, shadow_index.
  destruct (m !! decl_id D) as [[Sh |] |] eqn:HD.
  - assert ({[decl_id D]} ⊆ dom m) as HV.
    { apply singleton_subseteq_l, elem_of_dom. by rewrite HD. }
    assert (size m + 1 <= fuel + size ({[decl_id D]} : gset nat)) as Hfuel'.
    { rewrite size_singleton. lia. }
    assert (forall d v, Some Sh = Some d -> v ∈ ({[decl_id D]} : gset nat) ->
                        reaches m v (decl_id d)) as Hreach.
    { intros d v [= <-] Hv. apply elem_of_singleton in Hv as ->.
      by apply reaches_step. }
    destruct (shadow_loop_finishes fuel m (Some Sh) [] _ Hac HV Hfuel' Hreach)
      as (l & m' & Hloop & l' & -> & Hch).
    assert (shadow_chain m (decl_id D) (Sh :: l')) as Hfull
      by by eapply chain_next.
    exists (Sh :: l'), m'. split; [exact Hloop |]. split; [exact Hfull |].
    by apply (shadow_chain_NoDup m).
  - exists [], m. repeat split.
    + by destruct fuel.
    + by apply chain_null.
    + constructor.
    + apply not_elem_of_nil.
  - exists [], (<[decl_id D := None]> m). repeat split.
    + by destruct fuel.
    + by apply chain_absent.
    + constructor.
    + apply not_elem_of_nil.
Qed.

Lemma getShorthandShadowedDecls_chain_witness :
  acyclic sampleShadows /\
  size sampleShadows <= 2 /\
  exists chain m',
    getShorthandShadowedDecls 2 sampleShadows sampleInnerX
    = Some (chain, m') /\
    shadow_chain sampleShadows (decl_id sampleInnerX) chain /\
    NoDup (decl_id <$> chain) /\
    decl_id sampleInnerX ∉ decl_id <$> chain.
Proof.
  assert (acyclic sampleShadows) as Hacyclic.
  { apply (acyclic_by_rank sampleShadows (fun k => k)).
    intros k Sh Hk. unfold sampleShadows in Hk.
    apply lookup_insert_Some in Hk as [[<- [= <-]] | [_ Hk]]; [simpl; lia |].
    apply lookup_insert_Some in Hk as [[<- [= <-]] | [_ Hk]]; [simpl; lia |].
    by rewrite lookup_empty in Hk. }
  assert (size sampleShadows <= 2) as Hsize by (vm_compute; lia).
  split; [exact Hacyclic |]. split; [exact Hsize |].
  exact (getShorthandShadowedDecls_chain sampleShadows sampleInnerX 2
           Hacyclic Hsize).
Defined.

(** The chain computed for the innermost binding: the middle one, then the
    outermost. *)
Example getShorthandShadowedDecls_sample :
  fst <$> getShorthandShadowedDecls 2 sampleShadows sampleInnerX
  = Some [sampleMiddleX; sampleOuterX].
Proof. reflexivity. Qed.

(** ** The hooks of the finder *)

Section Hooks.
Variable NDEBUG : bool.
Context `{SourceManager} `{ShorthandShadows}.

Local Ltac break_match :=
  match goal with
  | |- context [match ?x with _ => _ end] => destruct x eqn:?
  | H : context [match ?x with _ => _ end] |- _ => destruct x eqn:?
  end.

Lemma assert_Ok cond a :
  assert NDEBUG cond a = Ok tt \/
  (assert NDEBUG cond a = Faulted (AssertionFailed a) /\
   NDEBUG = false /\ cond = false).
Proof. unfold assert. destruct NDEBUG, cond; simpl; auto. Qed.

Lemma assert_true a : assert NDEBUG true a = Ok tt.
Proof. unfold assert. by destruct NDEBUG. Qed.

Lemma recordShadows_cases l : forall m,
  (exists m', recordShadows NDEBUG l m = Ok m') \/
  (recordShadows NDEBUG l m =
     Faulted (AssertionFailed Assert_ShadowKeyIsFresh) /\ NDEBUG = false).
Proof.
  induction l as [| [first second] l IH]; intros m; simpl.
  - left. by eexists.
  - destruct (assert_Ok (bool_decide (m !! decl_id first = None))
                Assert_ShadowKeyIsFresh) as [-> | (-> & Hn & _)].
    + apply IH.
    + by right.
Qed.

Lemma pop_back_expecting_pushed DC F s :
  DeclContextStack F = s ++ [DC] ->
  pop_back_expecting NDEBUG DC F = Ok (set_stack s F).
Proof.
  intros Hs. unfold pop_back_expecting.
  rewrite Hs, last_snoc, bool_decide_eq_true_2 by done.
  by rewrite assert_true, removelast_last.
Qed.

(** What [walkToDeclPre] answers, and the finder it leaves. *)
Lemma walkToDeclPre_Ok D F a F' :
  walkToDeclPre NDEBUG D F = Ok (a, F') ->
  match a with
  | PreSkipChildren =>
      rangeContainsLocToResolve F (decl_rangeIncludingAttrs D) = false /\
      F' = F
  | PreContinue =>
      rangeContainsLocToResolve F (decl_rangeIncludingAttrs D) = true /\
      matchRule_decl (LocToResolve F) D = false /\
      F' = enterDecl D F
  | PreStop =>
      rangeContainsLocToResolve F (decl_rangeIncludingAttrs D) = true /\
      matchRule_decl (LocToResolve F) D = true /\
      F' = set_Result (Some (NodeFinderDeclResult D)) (enterDecl D F)
  end.
Proof.
  unfold walkToDeclPre, matchRule_decl, carriesName, dyn_cast_ValueDecl.
  fold (enterDecl D F).
  assert (LocToResolve (enterDecl D F) = LocToResolve F) as ->.
  { unfold enterDecl. by destruct (dyn_cast_DeclContext D). }
  destruct (rangeContainsLocToResolve F _); simpl.
  - destruct (decl_loc D =? LocToResolve F); simpl.
    + destruct (isValueDeclKind (decl_kind D)); simpl.
      * destruct (decl_hasName D); simpl.
        -- destruct (isa_ParamDecl D); simpl.
           ++ by intros [= <- <-].
           ++ destruct (assert_Ok (bool_decide (Result (enterDecl D F) = None))
                          Assert_ResultIsNull) as [-> | (-> & _)];
                [by intros [= <- <-] | done].
        -- by intros [= <- <-].
      * by intros [= <- <-].
    + by intros [= <- <-].
  - by intros [= <- <-].
Qed.

(** [walkToDeclPre] returns when no result has been found yet. *)
Lemma walkToDeclPre_returns D F :
  Result F = None -> exists a F', walkToDeclPre NDEBUG D F = Ok (a, F').
Proof.
  intros HR. unfold walkToDeclPre. fold (enterDecl D F).
  assert (Result (enterDecl D F) = None) as ->.
  { unfold enterDecl. by destruct (dyn_cast_DeclContext D). }
  rewrite bool_decide_eq_true_2, assert_true by done.
  repeat (break_match; simpl); eauto.
Qed.

Lemma enterDecl_fields D F :
  LocToResolve (enterDecl D F) = LocToResolve F /\
  Result (enterDecl D F) = Result F /\
  ShorthandShadowedDecls (enterDecl D F) = ShorthandShadowedDecls F /\
  DeclContextStack (enterDecl D F) =
    DeclContextStack F ++ option_list (dyn_cast_DeclContext D).
Proof.
  unfold enterDecl. destruct (dyn_cast_DeclContext D); simpl;
    rewrite ?app_nil_r; done.
Qed.

Lemma enterExpr_fields E F :
  LocToResolve (enterExpr E F) = LocToResolve F /\
  Result (enterExpr E F) = Result F /\
  ShorthandShadowedDecls (enterExpr E F) = ShorthandShadowedDecls F /\
  DeclContextStack (enterExpr E F) =
    DeclContextStack F ++ option_list (dyn_cast_ClosureExpr E).
Proof.
  unfold enterExpr. destruct (dyn_cast_ClosureExpr E); simpl;
    rewrite ?app_nil_r; done.
Qed.

Lemma walkToDeclPost_Ok D F a F' :
  walkToDeclPost NDEBUG D F = Ok (a, F') ->
  a = PostContinue /\
  LocToResolve F' = LocToResolve F /\ Result F' = Result F /\
  ShorthandShadowedDecls F' = ShorthandShadowedDecls F /\
  DeclContextStack F' =
    match dyn_cast_DeclContext D with
    | Some _ => removelast (DeclContextStack F)
    | None => DeclContextStack F
    end.
Proof.
  unfold walkToDeclPost, pop_back_expecting.
  destruct (dyn_cast_DeclContext D); [| by intros [= <- <-]].
  destruct (last (DeclContextStack F)); [| done].
  destruct (assert NDEBUG _ _); [| done].
  by intros [= <- <-].
Qed.

Lemma walkToExprPost_Ok E F a F' :
  walkToExprPost NDEBUG E F = Ok (a, F') ->
  a = PostContinue /\
  LocToResolve F' = LocToResolve F /\ Result F' = Result F /\
  ShorthandShadowedDecls F' = ShorthandShadowedDecls F /\
  DeclContextStack F' =
    match dyn_cast_ClosureExpr E with
    | Some _ => removelast (DeclContextStack F)
    | None => DeclContextStack F
    end.
Proof.
  unfold walkToExprPost, pop_back_expecting.
  destruct (dyn_cast_ClosureExpr E); [| by intros [= <- <-]].
  destruct (last (DeclContextStack F)); [| done].
  destruct (assert NDEBUG _ _); [| done].
  by intros [= <- <-].
Qed.

(** The finder after the shadows of a capture list were recorded. *)
Lemma walkToExprPre_Ok E F a F' :
  walkToExprPre NDEBUG E F = Ok (a, F') ->
  LocToResolve F' = LocToResolve F /\
  DeclContextStack F' = DeclContextStack (enterExpr E F) /\
  match a with
  | PreSkipChildren => False
  | PreContinue =>
      matchRule_expr (LocToResolve F) E = false /\ Result F' = Result F
  | PreStop =>
      matchRule_expr (LocToResolve F) E = true /\
      exists DC, last (DeclContextStack F') = Some DC /\
                 Result F' = Some (NodeFinderExprResult E DC)
  end.
Proof.
  unfold walkToExprPre, matchRule_expr. fold (enterExpr E F).
  destruct (enterExpr_fields E F) as (HL & HR & _ & _).
  set (shadowed := if isa_CaptureListExpr E then _ else _).
  assert (forall F2, shadowed = Ok F2 ->
            LocToResolve F2 = LocToResolve F /\
            DeclContextStack F2 = DeclContextStack (enterExpr E F) /\
            Result F2 = Result F) as Hsh.
  { subst shadowed. intros F2. destruct (isa_CaptureListExpr E).
    - destruct (getCurrentDeclContext (enterExpr E F)); [| done].
      destruct (recordShadows _ _ _); [| done].
      by intros [= <-].
    - by intros [= <-]. }
  destruct shadowed as [F2 | f]; [| done].
  destruct (Hsh F2 eq_refl) as (HL2 & HS2 & HR2).
  rewrite HL2.
  destruct (expr_loc E =? LocToResolve F); simpl.
  - unfold getCurrentDeclContext.
    destruct (expr_kind E); simpl;
      try (intros [= <- <-]; by rewrite ?HL2, ?HS2, ?HR2);
      (destruct (assert NDEBUG _ _); [| done];
       destruct (last (DeclContextStack F2)) as [DC |] eqn:Hlast; [| done];
       intros [= <- <-]; simpl;
       repeat split; try done; exists DC; by split).
  - intros [= <- <-]. by rewrite ?HL2, ?HS2, ?HR2.
Qed.

(** [walkToExprPre] returns when no result has been found yet and the
    stack is not empty, unless a shadowing declaration is recorded twice
    in a build with assertions. *)
Lemma walkToExprPre_returns E F :
  Result F = None -> DeclContextStack F <> [] ->
  (exists a F', walkToExprPre NDEBUG E F = Ok (a, F')) \/
  (walkToExprPre NDEBUG E F =
     Faulted (AssertionFailed Assert_ShadowKeyIsFresh) /\
   NDEBUG = false /\ isa_CaptureListExpr E = true).
Proof.
  intros HR Hne. unfold walkToExprPre. fold (enterExpr E F).
  destruct (enterExpr_fields E F) as (_ & HR1 & _ & HS1).
  assert (exists DC, last (DeclContextStack (enterExpr E F)) = Some DC)
    as [DC HDC].
  { rewrite HS1. destruct (dyn_cast_ClosureExpr E) as [c |]; simpl.
    - rewrite last_snoc. eauto.
    - rewrite app_nil_r. destruct (last (DeclContextStack F)) eqn:Hl; eauto.
      by apply last_None in Hl. }
  assert (getCurrentDeclContext (enterExpr E F) = Ok DC) as HG0.
  { unfold getCurrentDeclContext. by rewrite HDC. }
  assert (forall m,
            getCurrentDeclContext (set_shadows m (enterExpr E F)) = Ok DC)
    as HG.
  { intros m. unfold getCurrentDeclContext. simpl. by rewrite HDC. }
  destruct (isa_CaptureListExpr E) eqn:Hcap.
  - rewrite HG0.
    destruct (recordShadows_cases
                (getShorthandShadows_CaptureList E DC)
                (ShorthandShadowedDecls (enterExpr E F)))
      as [[m' Hm] | [Hm Hn]]; rewrite Hm; [| right; auto].
    left. simpl. rewrite HG, HR1, HR.
    rewrite bool_decide_eq_true_2, assert_true by done.
    repeat (break_match; simpl); eauto.
  - left. rewrite HG0, HR1, HR.
    rewrite bool_decide_eq_true_2, assert_true by done.
    repeat (break_match; simpl); eauto.
Qed.

Lemma walkToStmtPre_Ok St F a F' :
  walkToStmtPre NDEBUG St F = Ok (a, F') ->
  a = PreContinue /\
  LocToResolve F' = LocToResolve F /\ Result F' = Result F /\
  DeclContextStack F' = DeclContextStack F.
Proof.
  unfold walkToStmtPre.
  destruct (isa_LabeledConditionalStmt St); [| by intros [= <- <-]].
  destruct (getCurrentDeclContext F); [| done].
  destruct (recordShadows _ _ _); [| done].
  by intros [= <- <-].
Qed.

Lemma walkToStmtPre_returns St F :
  DeclContextStack F <> [] ->
  (exists a F', walkToStmtPre NDEBUG St F = Ok (a, F')) \/
  (walkToStmtPre NDEBUG St F =
     Faulted (AssertionFailed Assert_ShadowKeyIsFresh) /\ NDEBUG = false).
Proof.
  intros Hne. unfold walkToStmtPre, getCurrentDeclContext.
  destruct (isa_LabeledConditionalStmt St); [| left; eauto].
  destruct (last (DeclContextStack F)) as [DC |] eqn:Hl;
    [| by apply last_None in Hl].
  destruct (recordShadows_cases (getShorthandShadows_CondStmt St DC)
              (ShorthandShadowedDecls F)) as [[m' ->] | [-> Hn]];
    [left; eauto | by right].
Qed.

End Hooks.

(** ** The walk *)

Lemma find_app {A} (f : A -> bool) (l1 l2 : list A) :
  find f (l1 ++ l2) =
  match find f l1 with
  | Some x => Some x
  | None => find f l2
  end.
Proof.
  induction l1 as [| x l1 IH]; simpl; [done |].
  by destruct (f x).
Qed.

Section Walk.
Variable NDEBUG : bool.
Context `{SourceManager} `{ShorthandShadows}.

Lemma walk_post_not_stopped entered F F' :
  walk_post entered F false F' ->
  Result F' = None /\ DeclContextStack F' = DeclContextStack F /\
  LocToResolve F' = LocToResolve F /\
  find (isMatch (LocToResolve F)) entered = None.
Proof.
  intros (HL & HS & _ & Hb & HR).
  destruct (find _ entered) as [c |] eqn:Hf.
  - rewrite bool_decide_eq_true_2 in Hb by eauto. done.
  - simpl in HR. auto.
Qed.

Lemma walkAll_Ok (cs : list ASTNode) :
  Forall (fun n => forall F b F',
            walkNode NDEBUG n F = Ok (b, F') -> Result F = None ->
            walk_post (enteredNodes (LocToResolve F) n) F b F') cs ->
  forall F b F',
    walkAll (walkNode NDEBUG) cs F = Ok (b, F') -> Result F = None ->
    walk_post (flat_map (enteredNodes (LocToResolve F)) cs) F b F'.
Proof.
  induction 1 as [| n cs Hn _ IH]; intros F b F' Hw HR; simpl in Hw.
  - injection Hw as <- <-. unfold walk_post. simpl.
    repeat split; auto.
    exists []. by rewrite app_nil_r.
  - destruct (walkNode NDEBUG n F) as [[b1 F1] | f] eqn:Hn1; [| done].
    specialize (Hn F b1 F1 Hn1 HR).
    destruct b1.
    + injection Hw as <- <-.
      destruct Hn as (HL & HS & HC & Hb & HRes).
      unfold walk_post. simpl flat_map. rewrite find_app.
      destruct (find _ (enteredNodes _ n)) as [c |] eqn:Hf.
      * repeat split; auto.
      * rewrite bool_decide_eq_false_2 in Hb; [done |]. by intros [? ?].
    + destruct (walk_post_not_stopped _ _ _ Hn) as (HR1 & HS1 & HL1 & Hf).
      specialize (IH F1 b F' Hw HR1).
      unfold walk_post in *. simpl flat_map. rewrite find_app, Hf.
      rewrite HL1, HS1 in IH. exact IH.
Qed.

Lemma walkNode_Ok (n : ASTNode) : forall F b F',
  walkNode NDEBUG n F = Ok (b, F') -> Result F = None ->
  walk_post (enteredNodes (LocToResolve F) n) F b F'.
Proof.
  induction n as [D cs IH | E cs IH | St cs IH] using ASTNode_tree_ind;
    intros F b F' Hw HR; simpl in Hw; unfold traverse in Hw.
  - (* a declaration *)
    destruct (walkToDeclPre NDEBUG D F) as [[a F1] | f] eqn:Hpre; [| done].
    apply walkToDeclPre_Ok in Hpre.
    destruct (enterDecl_fields D F) as (HL1 & HR1 & _ & HS1).
    unfold rangeContainsLocToResolve in Hpre.
    destruct a.
    + destruct Hpre as (Hin & Hm & ->). injection Hw as <- <-.
      unfold walk_post. simpl. rewrite Hin. simpl. rewrite Hm.
      rewrite bool_decide_eq_true_2 by eauto.
      repeat split; eauto; done.
    + destruct Hpre as (Hin & ->). injection Hw as <- <-.
      unfold walk_post. simpl. rewrite Hin. simpl.
      repeat split; auto.
      exists []. by rewrite app_nil_r.
    + destruct Hpre as (Hin & Hm & ->).
      destruct (walkAll _ cs (enterDecl D F)) as [[b2 F2] | f] eqn:Hcs;
        [| done].
      apply (walkAll_Ok cs IH) in Hcs; [| by rewrite HR1].
      unfold walk_post. simpl. rewrite Hin. simpl. rewrite Hm.
      destruct b2.
      * injection Hw as <- <-.
        destruct Hcs as (HL2 & _ & [ctxs HS2] & Hb & HRes).
        rewrite HL1 in Hb, HRes.
        repeat split; auto; try congruence.
        exists (option_list (dyn_cast_DeclContext D) ++ ctxs).
        by rewrite HS2, HS1, app_assoc.
      * destruct (walk_post_not_stopped _ _ _ Hcs) as (HR2 & HS2 & HL2 & Hf).
        rewrite HL1 in Hf.
        destruct (walkToDeclPost NDEBUG D F2) as [[a3 F3] | f] eqn:Hpost;
          [| done].
        apply walkToDeclPost_Ok in Hpost
          as (-> & HL3 & HR3 & _ & HS3).
        injection Hw as <- <-.
        assert (DeclContextStack F3 = DeclContextStack F) as HS.
        { rewrite HS3, HS2, HS1.
          destruct (dyn_cast_DeclContext D); simpl.
          - apply removelast_last.
          - apply app_nil_r. }
        rewrite Hf. simpl.
        repeat split; try congruence.
        exists []. by rewrite app_nil_r.
  - (* an expression *)
    destruct (walkToExprPre NDEBUG E F) as [[a F1] | f] eqn:Hpre; [| done].
    apply walkToExprPre_Ok in Hpre as (HL1 & HS1 & Hpre).
    destruct (enterExpr_fields E F) as (_ & _ & _ & HSe).
    rewrite HSe in HS1.
    destruct a.
    + destruct Hpre as (Hm & DC & _ & HRes). injection Hw as <- <-.
      unfold walk_post. simpl. rewrite Hm.
      rewrite bool_decide_eq_true_2 by eauto.
      repeat split; simpl; eauto; done.
    + done.
    + destruct Hpre as (Hm & HR1).
      destruct (walkAll _ cs F1) as [[b2 F2] | f] eqn:Hcs; [| done].
      apply (walkAll_Ok cs IH) in Hcs; [| congruence].
      unfold walk_post. simpl. rewrite Hm.
      destruct b2.
      * injection Hw as <- <-.
        destruct Hcs as (HL2 & _ & [ctxs HS2] & Hb & HRes).
        rewrite HL1 in Hb, HRes.
        repeat split; auto; try congruence.
        exists (option_list (dyn_cast_ClosureExpr E) ++ ctxs).
        by rewrite HS2, HS1, app_assoc.
      * destruct (walk_post_not_stopped _ _ _ Hcs) as (HR2 & HS2 & HL2 & Hf).
        rewrite HL1 in Hf.
        destruct (walkToExprPost NDEBUG E F2) as [[a3 F3] | f] eqn:Hpost;
          [| done].
        apply walkToExprPost_Ok in Hpost
          as (-> & HL3 & HR3 & _ & HS3).
        injection Hw as <- <-.
        assert (DeclContextStack F3 = DeclContextStack F) as HS.
        { rewrite HS3, HS2, HS1.
          destruct (dyn_cast_ClosureExpr E); simpl.
          - apply removelast_last.
          - apply app_nil_r. }
        rewrite Hf. simpl.
        repeat split; try congruence.
        exists []. by rewrite app_nil_r.
  - (* a statement *)
    destruct (walkToStmtPre NDEBUG St F) as [[a F1] | f] eqn:Hpre; [| done].
    apply walkToStmtPre_Ok in Hpre as (-> & HL1 & HR1 & HS1).
    destruct (walkAll _ cs F1) as [[b2 F2] | f] eqn:Hcs; [| done].
    apply (walkAll_Ok cs IH) in Hcs; [| congruence].
    unfold walkToStmtPost in Hw.
    destruct b2; injection Hw as <- <-.
    + destruct Hcs as (HL2 & _ & [ctxs HS2] & Hb & HRes).
      rewrite HL1 in Hb, HRes.
      unfold walk_post. simpl.
      repeat split; auto; try congruence.
      exists ctxs. congruence.
    + destruct (walk_post_not_stopped _ _ _ Hcs) as (HR2 & HS2 & HL2 & Hf).
      rewrite HL1 in Hf.
      unfold walk_post. simpl. rewrite Hf. simpl.
      repeat split; try congruence.
      exists []. rewrite app_nil_r. congruence.
Qed.

Lemma resolve_Ok (SrcFile : SourceFile) F b F' :
  resolve NDEBUG SrcFile F = Ok (b, F') -> Result F = None ->
  walk_post (flat_map (enteredNodes (LocToResolve F)) (sf_items SrcFile))
    F b F'.
Proof.
  unfold resolve. apply walkAll_Ok.
  apply Forall_forall. intros n _. apply walkNode_Ok.
Qed.

Lemma walkAll_stack (cs : list ASTNode) :
  Forall (fun n => forall F b F',
            walkNode NDEBUG n F = Ok (b, F') -> Result F = None ->
            stack_post (contextsToMatch (LocToResolve F) n) F b F') cs ->
  forall F b F',
    walkAll (walkNode NDEBUG) cs F = Ok (b, F') -> Result F = None ->
    stack_post (firstSome (contextsToMatch (LocToResolve F)) cs) F b F'.
Proof.
  induction 1 as [| n cs Hn _ IH]; intros F b F' Hw HR; simpl in Hw.
  - injection Hw as <- <-. by split.
  - destruct (walkNode NDEBUG n F) as [[b1 F1] | f] eqn:Hn1; [| done].
    pose proof (walkNode_Ok n F b1 F1 Hn1 HR) as Hpost.
    specialize (Hn F b1 F1 Hn1 HR).
    cbn [firstSome]. unfold stack_post in Hn.
    destruct (contextsToMatch (LocToResolve F) n) as [ctxs |].
    + destruct Hn as (-> & HS). injection Hw as <- <-. by split.
    + destruct Hn as (-> & HS).
      destruct (walk_post_not_stopped _ _ _ Hpost) as (HR1 & _ & HL1 & _).
      specialize (IH F1 b F' Hw HR1). unfold stack_post in IH |- *.
      rewrite HL1 in IH.
      destruct (firstSome _ cs) as [ctxs |]; by rewrite <- HS.
Qed.

Lemma walkNode_stack (n : ASTNode) : forall F b F',
  walkNode NDEBUG n F = Ok (b, F') -> Result F = None ->
  stack_post (contextsToMatch (LocToResolve F) n) F b F'.
Proof.
  induction n as [D cs IH | E cs IH | St cs IH] using ASTNode_tree_ind;
    intros F b F' Hw HR; simpl in Hw; unfold traverse in Hw;
    cbn [contextsToMatch].
  - (* a declaration *)
    destruct (walkToDeclPre NDEBUG D F) as [[a F1] | f] eqn:Hpre; [| done].
    apply walkToDeclPre_Ok in Hpre.
    destruct (enterDecl_fields D F) as (HL1 & HR1 & _ & HS1).
    unfold rangeContainsLocToResolve in Hpre.
    destruct a.
    + destruct Hpre as (Hin & Hm & ->). injection Hw as <- <-.
      rewrite Hin, Hm. by split.
    + destruct Hpre as (Hin & ->). injection Hw as <- <-.
      rewrite Hin. by split.
    + destruct Hpre as (Hin & Hm & ->). rewrite Hin, Hm.
      destruct (walkAll _ cs (enterDecl D F)) as [[b2 F2] | f] eqn:Hcs;
        [| done].
      apply (walkAll_stack cs IH) in Hcs; [| by rewrite HR1].
      rewrite HL1 in Hcs. unfold stack_post in Hcs.
      destruct (firstSome _ cs) as [ctxs |].
      * destruct Hcs as (-> & HS2). injection Hw as <- <-.
        split; [done |]. by rewrite HS2, HS1, app_assoc.
      * destruct Hcs as (-> & HS2).
        destruct (walkToDeclPost NDEBUG D F2) as [[a3 F3] | f] eqn:Hpost;
          [| done].
        apply walkToDeclPost_Ok in Hpost as (-> & _ & _ & _ & HS3).
        injection Hw as <- <-. split; [done |].
        rewrite HS3, HS2, HS1.
        destruct (dyn_cast_DeclContext D); simpl.
        -- apply removelast_last.
        -- apply app_nil_r.
  - (* an expression *)
    destruct (walkToExprPre NDEBUG E F) as [[a F1] | f] eqn:Hpre; [| done].
    apply walkToExprPre_Ok in Hpre as (HL1 & HS1 & Hpre).
    destruct (enterExpr_fields E F) as (_ & _ & _ & HSe).
    rewrite HSe in HS1.
    destruct a.
    + destruct Hpre as (Hm & _). injection Hw as <- <-.
      rewrite Hm. by split.
    + done.
    + destruct Hpre as (Hm & HR1). rewrite Hm.
      destruct (walkAll _ cs F1) as [[b2 F2] | f] eqn:Hcs; [| done].
      apply (walkAll_stack cs IH) in Hcs; [| congruence].
      rewrite HL1 in Hcs. unfold stack_post in Hcs.
      destruct (firstSome _ cs) as [ctxs |].
      * destruct Hcs as (-> & HS2). injection Hw as <- <-.
        split; [done |]. by rewrite HS2, HS1, app_assoc.
      * destruct Hcs as (-> & HS2).
        destruct (walkToExprPost NDEBUG E F2) as [[a3 F3] | f] eqn:Hpost;
          [| done].
        apply walkToExprPost_Ok in Hpost as (-> & _ & _ & _ & HS3).
        injection Hw as <- <-. split; [done |].
        rewrite HS3, HS2, HS1.
        destruct (dyn_cast_ClosureExpr E); simpl.
        -- apply removelast_last.
        -- apply app_nil_r.
  - (* a statement *)
    destruct (walkToStmtPre NDEBUG St F) as [[a F1] | f] eqn:Hpre; [| done].
    apply walkToStmtPre_Ok in Hpre as (-> & HL1 & HR1 & HS1).
    destruct (walkAll _ cs F1) as [[b2 F2] | f] eqn:Hcs; [| done].
    apply (walkAll_stack cs IH) in Hcs; [| congruence].
    rewrite HL1 in Hcs. unfold stack_post in Hcs |- *.
    unfold walkToStmtPost in Hw.
    destruct (firstSome _ cs) as [ctxs |];
      destruct Hcs as (-> & HS2); injection Hw as <- <-;
      split; congruence.
Qed.

Lemma resolve_stack (SrcFile : SourceFile) F b F' :
  resolve NDEBUG SrcFile F = Ok (b, F') -> Result F = None ->
  stack_post (firstSome (contextsToMatch (LocToResolve F))
                (sf_items SrcFile)) F b F'.
Proof.
  unfold resolve. apply walkAll_stack.
  apply Forall_forall. intros n _. apply walkNode_stack.
Qed.

Lemma app_not_nil {A} (l1 l2 : list A) : l1 <> [] -> l1 ++ l2 <> [].
Proof. by destruct l1. Qed.

Lemma walkAll_fault (cs : list ASTNode) :
  Forall (fun n => forall F f,
            walkNode NDEBUG n F = Faulted f -> Result F = None ->
            DeclContextStack F <> [] -> only_shadow_fault NDEBUG f) cs ->
  forall F f,
    walkAll (walkNode NDEBUG) cs F = Faulted f -> Result F = None ->
    DeclContextStack F <> [] -> only_shadow_fault NDEBUG f.
Proof.
  induction 1 as [| n cs Hn _ IH]; intros F f Hw HR Hne; simpl in Hw.
  - done.
  - destruct (walkNode NDEBUG n F) as [[b1 F1] | f1] eqn:Hn1.
    + destruct b1; [done |].
      apply walkNode_Ok in Hn1; [| done].
      destruct (walk_post_not_stopped _ _ _ Hn1) as (HR1 & HS1 & _ & _).
      apply (IH F1 f Hw HR1). by rewrite HS1.
    + injection Hw as <-. by eapply Hn.
Qed.

Lemma walkNode_fault (n : ASTNode) : forall F f,
  walkNode NDEBUG n F = Faulted f -> Result F = None ->
  DeclContextStack F <> [] -> only_shadow_fault NDEBUG f.
Proof.
  induction n as [D cs IH | E cs IH | St cs IH] using ASTNode_tree_ind;
    intros F f Hw HR Hne; simpl in Hw; unfold traverse in Hw.
  - destruct (walkToDeclPre_returns NDEBUG D F HR) as (a & F1 & Hpre).
    rewrite Hpre in Hw. apply walkToDeclPre_Ok in Hpre.
    destruct (enterDecl_fields D F) as (_ & HR1 & _ & HS1).
    destruct a; [done | done |]. destruct Hpre as (_ & _ & ->).
    destruct (walkAll _ cs (enterDecl D F)) as [[b2 F2] | f2] eqn:Hcs.
    + destruct b2; [done |].
      apply (walkAll_Ok cs) in Hcs;
        [| apply Forall_forall; intros; by apply walkNode_Ok
         | by rewrite HR1].
      destruct (walk_post_not_stopped _ _ _ Hcs) as (_ & HS2 & _ & _).
      unfold walkToDeclPost in Hw.
      rewrite HS1 in HS2.
      destruct (dyn_cast_DeclContext D) as [newDC |]; [| done].
      by rewrite (pop_back_expecting_pushed NDEBUG newDC F2 _ HS2) in Hw.
    + injection Hw as <-.
      apply (walkAll_fault cs IH _ _ Hcs); [by rewrite HR1 |].
      rewrite HS1. by apply app_not_nil.
  - destruct (walkToExprPre_returns NDEBUG E F HR Hne)
      as [(a & F1 & Hpre) | (Hpre & Hn & _)];
      [| rewrite Hpre in Hw; injection Hw as <-; by split].
    rewrite Hpre in Hw. apply walkToExprPre_Ok in Hpre as (_ & HS1 & Hpre).
    destruct (enterExpr_fields E F) as (_ & _ & _ & HSe).
    rewrite HSe in HS1.
    destruct a; [done | done |]. destruct Hpre as (_ & HR1).
    destruct (walkAll _ cs F1) as [[b2 F2] | f2] eqn:Hcs.
    + destruct b2; [done |].
      apply (walkAll_Ok cs) in Hcs;
        [| apply Forall_forall; intros; by apply walkNode_Ok
         | congruence].
      destruct (walk_post_not_stopped _ _ _ Hcs) as (_ & HS2 & _ & _).
      unfold walkToExprPost in Hw.
      rewrite HS1 in HS2.
      destruct (dyn_cast_ClosureExpr E) as [closure |]; [| done].
      by rewrite (pop_back_expecting_pushed NDEBUG closure F2 _ HS2) in Hw.
    + injection Hw as <-.
      apply (walkAll_fault cs IH _ _ Hcs); [congruence |].
      rewrite HS1. by apply app_not_nil.
  - destruct (walkToStmtPre_returns NDEBUG St F Hne)
      as [(a & F1 & Hpre) | (Hpre & Hn)];
      [| rewrite Hpre in Hw; injection Hw as <-; by split].
    rewrite Hpre in Hw.
    apply walkToStmtPre_Ok in Hpre as (-> & _ & HR1 & HS1).
    destruct (walkAll _ cs F1) as [[b2 F2] | f2] eqn:Hcs.
    + by destruct b2.
    + injection Hw as <-.
      apply (walkAll_fault cs IH _ _ Hcs); congruence.
Qed.

Lemma resolve_fault (SrcFile : SourceFile) F f :
  resolve NDEBUG SrcFile F = Faulted f -> Result F = None ->
  DeclContextStack F <> [] -> only_shadow_fault NDEBUG f.
Proof.
  unfold resolve. apply walkAll_fault.
  apply Forall_forall. intros n _. apply walkNode_fault.
Qed.

End Walk.

(** Without assertions the walk always returns. *)
Lemma resolve_returns `{SourceManager} `{ShorthandShadows}
    (SrcFile : SourceFile) (Loc : SourceLoc) :
  exists stopped F',
    resolve true SrcFile (NodeFinder_new SrcFile Loc) = Ok (stopped, F').
Proof.
  destruct (resolve true SrcFile (NodeFinder_new SrcFile Loc))
    as [[stopped F'] | f] eqn:Hw; [eauto |].
  apply resolve_fault in Hw as [_ Hn]; done.
Qed.

(** ** The scope stack *)

(** C2, at a sample input.  The position is the name of a function: the
    function is a declaration context, so it is pushed, and it is the
    match, so the walk stops there.  The stack, one deep before the walk,
    is two deep after it. *)
Lemma stack_not_popped_after_match :
  stackAfter (@resolve true plainSourceManager noShorthandShadows
                sampleFuncFile (NodeFinder_new sampleFuncFile 5))
  = Some [sampleFileContext; NestedContext DCK_Decl 10 sampleFileContext] /\
  DeclContextStack (NodeFinder_new sampleFuncFile 5) = [sampleFileContext].
Proof. split; reflexivity. Qed.

(** C2, as the code has it.  A walk that ends without a match has popped every
    context it pushed: the stack is what it was before the walk.  A walk
    that finds a match stops at once and pops nothing more: the stack is
    then what it was before the walk followed by the contexts entered on
    the way down to the match, outermost first, the one of the matching
    declaration included when it is a context. *)
Theorem resolve_stack_discipline (NDEBUG : bool) `{SourceManager}
    `{ShorthandShadows} (SrcFile : SourceFile) (F : NodeFinder)
    (stopped : bool) (F' : NodeFinder) :
  Result F = None ->
  resolve NDEBUG SrcFile F = Ok (stopped, F') ->
  (Result F' = None ->
     stopped = false /\ DeclContextStack F' = DeclContextStack F /\
     firstSome (contextsToMatch (LocToResolve F)) (sf_items SrcFile)
     = None) /\
  (Result F' <> None ->
     stopped = true /\
     exists entered,
       firstSome (contextsToMatch (LocToResolve F)) (sf_items SrcFile)
       = Some entered /\
       DeclContextStack F' = DeclContextStack F ++ entered).
Proof.
  intros HR Hw.
  destruct (resolve_Ok NDEBUG SrcFile F stopped F' Hw HR)
    as (_ & _ & _ & Hb & Hres).
  pose proof (resolve_stack NDEBUG SrcFile F stopped F' Hw HR) as Hstack.
  unfold stack_post in Hstack.
  destruct (find _ _) as [c |] eqn:Hf.
  - rewrite bool_decide_eq_true_2 in Hb by eauto. subst stopped.
    destruct (firstSome _ _) as [entered |]; [| by destruct Hstack].
    destruct Hstack as (_ & HS). split.
    + intros HN. rewrite HN in Hres. destruct c as [D | E]; simpl in Hres.
      * done.
      * by destruct Hres.
    + intros _. split; [done |]. by exists entered.
  - rewrite bool_decide_eq_false_2 in Hb by (by intros [? ?]).
    subst stopped. simpl in Hres.
    destruct (firstSome _ _) as [entered |]; [by destruct Hstack |].
    destruct Hstack as (_ & HS). split; [auto | done].
Qed.

Lemma resolve_stack_discipline_witness :
  Result (NodeFinder_new sampleFuncFile 5) = None /\
  @resolve true plainSourceManager noShorthandShadows sampleFuncFile
    (NodeFinder_new sampleFuncFile 5) = Ok (true, sampleFuncFinder) /\
  Result sampleFuncFinder <> None /\
  exists entered,
    firstSome (@contextsToMatch plainSourceManager 5)
      (sf_items sampleFuncFile) = Some entered /\
    entered = [NestedContext DCK_Decl 10 sampleFileContext] /\
    DeclContextStack sampleFuncFinder
    = DeclContextStack (NodeFinder_new sampleFuncFile 5) ++ entered.
Proof.
  assert (Result sampleFuncFinder <> None) as Hsome by done.
  split; [reflexivity |]. split; [reflexivity |]. split; [exact Hsome |].
  destruct (proj2 (@resolve_stack_discipline true plainSourceManager
                     noShorthandShadows sampleFuncFile
                     (NodeFinder_new sampleFuncFile 5) true sampleFuncFinder
                     eq_refl eq_refl) Hsome)
    as (_ & entered & Hpath & Hstack).
  exists entered. split; [exact Hpath |]. split; [| exact Hstack].
  vm_compute in Hpath. by injection Hpath as <-.
Defined.

(** ** The first match *)

Lemma find_head_filter {A} (f : A -> bool) (l : list A) :
  find f l = head (List.filter f l).
Proof.
  induction l as [| x l IH]; simpl; [done |].
  by destruct (f x).
Qed.

(** C3, at two sample inputs.  In each tree the position is the name of
    exactly one declaration, and there is no expression, yet the finder
    returns nothing.  In the first the declaration is a function whose
    source range does not contain the position, so the walk skips it.  In
    the second it is the parameter of [func f(p)], which the walk enters
    and passes by. *)
Lemma sole_named_declaration_not_returned :
  (List.filter (fun D => (decl_loc D =? 5) && carriesName D)
     (flat_map declarations (sf_items sampleOutsideFile))
   = [sampleOutsideFunc] /\
   flat_map expressions (sf_items sampleOutsideFile) = [] /\
   @resolve true plainSourceManager noShorthandShadows sampleOutsideFile
     (NodeFinder_new sampleOutsideFile 5)
   = Ok (false, NodeFinder_new sampleOutsideFile 5)) /\
  (List.filter (fun D => (decl_loc D =? 7) && carriesName D)
     (flat_map declarations (sf_items sampleParamFile))
   = [sampleParam] /\
   flat_map expressions (sf_items sampleParamFile) = [] /\
   @resolve true plainSourceManager noShorthandShadows sampleParamFile
     (NodeFinder_new sampleParamFile 7)
   = Ok (false, NodeFinder_new sampleParamFile 7)).
Proof. repeat split. Qed.

(** C3, as the code has it.  The finder holds at most one result, and it is the
    first node, in depth-first pre-order over the nodes the walk enters,
    that matches the position, be it a declaration or an expression; the
    walk is stopped exactly when there is one.  So when exactly one of the
    nodes the walk enters matches and it is a declaration, that
    declaration is the result. *)
Theorem resolve_first_match (NDEBUG : bool) `{SourceManager}
    `{ShorthandShadows} (SrcFile : SourceFile) (F : NodeFinder)
    (stopped : bool) (F' : NodeFinder) :
  Result F = None ->
  resolve NDEBUG SrcFile F = Ok (stopped, F') ->
  resultIs (Result F') (firstMatch (LocToResolve F) (sf_items SrcFile)) /\
  (stopped = true <->
     is_Some (firstMatch (LocToResolve F) (sf_items SrcFile))) /\
  (forall D,
     List.filter (isMatch (LocToResolve F))
       (flat_map (enteredNodes (LocToResolve F)) (sf_items SrcFile))
     = [CandidateDecl D] ->
     Result F' = Some (NodeFinderDeclResult D)).
Proof.
  intros HR Hw.
  destruct (resolve_Ok NDEBUG SrcFile F stopped F' Hw HR)
    as (_ & _ & _ & Hb & Hres).
  fold (firstMatch (LocToResolve F) (sf_items SrcFile)) in Hb, Hres.
  split; [exact Hres |]. split.
  - rewrite Hb. apply bool_decide_eq_true.
  - intros D HD. unfold firstMatch in Hres.
    by rewrite find_head_filter, HD in Hres.
Qed.

Lemma resolve_first_match_witness :
  Result (NodeFinder_new sampleFuncFile 5) = None /\
  @resolve true plainSourceManager noShorthandShadows sampleFuncFile
    (NodeFinder_new sampleFuncFile 5) = Ok (true, sampleFuncFinder) /\
  resultIs (Result sampleFuncFinder)
    (@firstMatch plainSourceManager 5 (sf_items sampleFuncFile)) /\
  (true = true <->
     is_Some (@firstMatch plainSourceManager 5 (sf_items sampleFuncFile))) /\
  (forall D,
     List.filter (isMatch 5)
       (flat_map (@enteredNodes plainSourceManager 5)
          (sf_items sampleFuncFile))
     = [CandidateDecl D] ->
     Result sampleFuncFinder = Some (NodeFinderDeclResult D)).
Proof.
  split; [reflexivity |]. split; [reflexivity |].
  apply (@resolve_first_match true plainSourceManager noShorthandShadows
           sampleFuncFile (NodeFinder_new sampleFuncFile 5) true
           sampleFuncFinder);
    reflexivity.
Defined.

(** ** The match rules *)

Lemma matchRule_decl_true (Loc : SourceLoc) (D : Decl) :
  matchRule_decl Loc D = true <->
  decl_loc D = Loc /\ carriesName D = true /\ isa_ParamDecl D = false.
Proof.
  unfold matchRule_decl.
  rewrite !andb_true_iff, negb_true_iff, Nat.eqb_eq. tauto.
Qed.

Lemma matchRule_expr_true (Loc : SourceLoc) (E : Expr) :
  matchRule_expr Loc E = true <->
  expr_loc E = Loc /\
  (expr_kind E = EK_DeclRef \/ expr_kind E = EK_UnresolvedDot \/
   expr_kind E = EK_UnresolvedDeclRef).
Proof.
  unfold matchRule_expr. rewrite andb_true_iff, Nat.eqb_eq.
  destruct (expr_kind E); simpl; intuition congruence.
Qed.

(** C4, at a sample input.  A function has its name at the position, it
    carries a name and it is no parameter, but its source range does not
    contain the position: [walkToDeclPre] skips it and leaves the finder as
    it was, without a result. *)
Lemma named_declaration_outside_range_skipped :
  decl_loc sampleOutsideFunc = 5 /\
  carriesName sampleOutsideFunc = true /\
  isa_ParamDecl sampleOutsideFunc = false /\
  @walkToDeclPre true plainSourceManager sampleOutsideFunc
    (NodeFinder_new sampleOutsideFile 5)
  = Ok (PreSkipChildren, NodeFinder_new sampleOutsideFile 5).
Proof. repeat split. Qed.

(** C4, as the code has it.  For a finder without a result yet,
    [walkToDeclPre] stops the walk with the declaration as the result
    exactly when the declaration's source range, attributes included,
    contains the position, its location equals the position, it carries a
    name and it is not a parameter.  A declaration whose range does not
    contain the position is skipped with its subtree, the finder staying
    as it was.  Within the range, a declaration that does not match, a
    parameter at the position in particular, is entered and the walk
    continues, without a result. *)
Theorem walkToDeclPre_match_rule (NDEBUG : bool) `{SourceManager}
    (D : Decl) (F : NodeFinder) :
  Result F = None ->
  let inRange :=
    containsRespectingReplacedRanges (decl_rangeIncludingAttrs D)
      (LocToResolve F) = true in
  let rule :=
    decl_loc D = LocToResolve F /\ carriesName D = true /\
    isa_ParamDecl D = false in
  ((exists F', walkToDeclPre NDEBUG D F = Ok (PreStop, F') /\
               Result F' = Some (NodeFinderDeclResult D))
   <-> inRange /\ rule) /\
  (~ inRange -> walkToDeclPre NDEBUG D F = Ok (PreSkipChildren, F)) /\
  (inRange -> ~ rule ->
   walkToDeclPre NDEBUG D F = Ok (PreContinue, enterDecl D F) /\
   Result (enterDecl D F) = None) /\
  (inRange -> decl_loc D = LocToResolve F -> isa_ParamDecl D = true ->
   walkToDeclPre NDEBUG D F = Ok (PreContinue, enterDecl D F) /\
   Result (enterDecl D F) = None).
Proof.
  intros HR inRange rule. subst inRange.
  destruct (walkToDeclPre_returns NDEBUG D F HR) as (a & F1 & Hpre).
  pose proof (walkToDeclPre_Ok NDEBUG D F a F1 Hpre) as Hcase.
  destruct (enterDecl_fields D F) as (_ & HR1 & _ & _).
  unfold rangeContainsLocToResolve in Hcase.
  assert (containsRespectingReplacedRanges (decl_rangeIncludingAttrs D)
            (LocToResolve F) = true -> ~ rule ->
          walkToDeclPre NDEBUG D F = Ok (PreContinue, enterDecl D F) /\
          Result (enterDecl D F) = None) as Hcont.
  { intros Hin Hnot. destruct a.
    - destruct Hcase as (_ & Hm & _). by apply matchRule_decl_true in Hm.
    - destruct Hcase as (Hout & _). congruence.
    - destruct Hcase as (_ & _ & ->). split; [done | congruence]. }
  split; [| split; [| split]].
  - split.
    + intros (F' & HF' & _). rewrite Hpre in HF'. injection HF' as -> ->.
      destruct Hcase as (Hin & Hm & _). split; [done |].
      by apply matchRule_decl_true.
    + intros (Hin & Hrule). apply matchRule_decl_true in Hrule.
      destruct a.
      * destruct Hcase as (_ & _ & ->). eauto.
      * destruct Hcase as (Hout & _). congruence.
      * destruct Hcase as (_ & Hm & _). congruence.
  - intros Hout. destruct a.
    + by destruct Hcase as (Hin & _).
    + by destruct Hcase as (_ & ->).
    + by destruct Hcase as (Hin & _).
  - exact Hcont.
  - intros Hin Hloc Hparam. apply Hcont; [done |].
    intros (_ & _ & Hnp). congruence.
Qed.

Lemma walkToDeclPre_match_rule_witness :
  Result (NodeFinder_new sampleFuncFile 5) = None /\
  (exists F', @walkToDeclPre true plainSourceManager sampleFunc
                (NodeFinder_new sampleFuncFile 5) = Ok (PreStop, F') /\
              Result F' = Some (NodeFinderDeclResult sampleFunc)) /\
  Result (NodeFinder_new sampleFuncFile 7) = None /\
  @walkToDeclPre true plainSourceManager sampleParam
    (NodeFinder_new sampleFuncFile 7)
  = Ok (PreContinue, enterDecl sampleParam (NodeFinder_new sampleFuncFile 7)).
Proof.
  split; [reflexivity |]. split.
  - apply (proj2 (proj1 (@walkToDeclPre_match_rule true plainSourceManager
                           sampleFunc (NodeFinder_new sampleFuncFile 5)
                           eq_refl))).
    repeat split.
  - split; [reflexivity |].
    apply (proj2 (proj2 (proj2
             (@walkToDeclPre_match_rule true plainSourceManager sampleParam
                (NodeFinder_new sampleFuncFile 7) eq_refl))));
      reflexivity.
Defined.

(** C5.  For a finder without a result yet and with a context on its
    stack: [walkToExprPre] stops the walk with the expression as the result
    exactly when the expression's location equals the position and its kind
    is [DeclRef], [UnresolvedDot] or [UnresolvedDeclRef]; for every other
    expression the walk continues and the finder stays without a result
    (unless, in a build with assertions, a capture list records a shadowing
    declaration twice). *)
Theorem walkToExprPre_match_rule (NDEBUG : bool) `{ShorthandShadows}
    (E : Expr) (F : NodeFinder) :
  Result F = None ->
  DeclContextStack F <> [] ->
  let rule :=
    expr_loc E = LocToResolve F /\
    (expr_kind E = EK_DeclRef \/ expr_kind E = EK_UnresolvedDot \/
     expr_kind E = EK_UnresolvedDeclRef) in
  ((exists F' DC, walkToExprPre NDEBUG E F = Ok (PreStop, F') /\
                  Result F' = Some (NodeFinderExprResult E DC)) <-> rule) /\
  (~ rule ->
   (exists F', walkToExprPre NDEBUG E F = Ok (PreContinue, F') /\
               Result F' = None) \/
   (walkToExprPre NDEBUG E F
      = Faulted (AssertionFailed Assert_ShadowKeyIsFresh) /\
    NDEBUG = false /\ isa_CaptureListExpr E = true)).
Proof.
  intros HR Hne rule.
  destruct (walkToExprPre_returns NDEBUG E F HR Hne)
    as [(a & F1 & Hpre) | (Hfault & Hn & Hcap)].
  - pose proof (walkToExprPre_Ok NDEBUG E F a F1 Hpre) as (_ & _ & Hcase).
    split.
    + split.
      * intros (F' & DC & HF' & _). rewrite Hpre in HF'.
        injection HF' as -> ->. destruct Hcase as (Hm & _).
        by apply matchRule_expr_true.
      * intros Hrule. apply matchRule_expr_true in Hrule.
        destruct a.
        -- destruct Hcase as (_ & DC & _ & HRes). eauto.
        -- done.
        -- destruct Hcase as (Hm & _). congruence.
    + intros Hnot. left. destruct a.
      * destruct Hcase as (Hm & _). by apply matchRule_expr_true in Hm.
      * done.
      * destruct Hcase as (_ & HR1). exists F1. split; [done | congruence].
  - assert (~ rule) as Hnot.
    { intros (_ & Hk). unfold isa_CaptureListExpr in Hcap.
      destruct Hk as [Hk | [Hk | Hk]]; by rewrite Hk in Hcap. }
    split.
    + split; [| done].
      intros (F' & DC & HF' & _). by rewrite Hfault in HF'.
    + intros _. right. auto.
Qed.

Lemma walkToExprPre_match_rule_witness :
  Result (NodeFinder_new sampleFuncFile 5) = None /\
  DeclContextStack (NodeFinder_new sampleFuncFile 5) <> [] /\
  ((exists F' DC,
      @walkToExprPre true noShorthandShadows sampleRef
        (NodeFinder_new sampleFuncFile 5) = Ok (PreStop, F') /\
      Result F' = Some (NodeFinderExprResult sampleRef DC)) <->
   expr_loc sampleRef = 5 /\
   (expr_kind sampleRef = EK_DeclRef \/
    expr_kind sampleRef = EK_UnresolvedDot \/
    expr_kind sampleRef = EK_UnresolvedDeclRef)).
Proof.
  split; [reflexivity |]. split; [discriminate |].
  apply (@walkToExprPre_match_rule true noShorthandShadows sampleRef
           (NodeFinder_new sampleFuncFile 5)); [reflexivity | discriminate].
Defined.

(** ** Type checking on demand *)

Section Trigger.
Context `{TypeChecker}.

Lemma typeCheckParentClosures_typed (DC : DeclContext) (st : ASTState) :
parentClosuresTyped st DC ->
typeCheckParentClosures DC st = (tt, st, []).
Proof.
induction DC as [id | kind id Parent IH]; simpl; [done |].
intros [Hclosure Hparent].
unfold tc_bind.
destruct kind as [| | Loc]; simpl in *.
- by rewrite (IH Hparent).
- by rewrite (IH Hparent).
- unfold tc_get, tc_bind.
  destruct Hclosure as [T HT]; [by eexists |].
  rewrite HT. simpl. by rewrite (IH Hparent).
Qed.

(** With every enclosing closure typed and the declaration's interface
  type known, the only requests left are those made for a variable. *)
Lemma typeCheckDeclAndParentClosures_checked (VD : ValueDecl) (st : ASTState) :
parentClosuresTyped st (decl_context VD) ->
is_Some (interfaceType st VD) ->
tc_log (typeCheckDeclAndParentClosures (Some VD) st) = varDeclRequests VD /\
(dyn_cast_VarDecl VD = None ->
 tc_state (typeCheckDeclAndParentClosures (Some VD) st) = st).
Proof.
intros Hclosures [T HT].
unfold typeCheckDeclAndParentClosures, varDeclRequests, tc_bind, tc_get,
  tc_log, tc_state.
rewrite (typeCheckParentClosures_typed _ _ Hclosures), HT. simpl.
destruct (dyn_cast_VarDecl VD) as [VarD |]; simpl; [| done].
split; [| done].
by destruct (decl_hasAttachedPropertyWrapper VarD).
Qed.

Lemma varDeclRequests_no_typeCheck (VD : ValueDecl) :
List.filter isTypeCheckASTNodeAtLoc (varDeclRequests VD) = [].
Proof.
unfold varDeclRequests.
destruct (dyn_cast_VarDecl VD) as [VarD |]; [| done].
by destruct (decl_hasAttachedPropertyWrapper VarD).
Qed.

End Trigger.

(** C9, at a sample input.  The variable lives in a closure; the type
    checker fails and leaves both without a type.  The second invocation
    then makes the three requests the first one made. *)
Lemma second_invocation_checks_again :
  let checker := sampleTypeChecker false noSolutions in
  let first :=
    @typeCheckDeclAndParentClosures checker (Some sampleVar) [] in
  tc_log (@typeCheckDeclAndParentClosures checker (Some sampleVar)
            (tc_state first))
  = [ @Req_typeCheckASTNodeAtLoc checker sampleFileContext 1 [];
      @Req_typeCheckASTNodeAtLoc checker
        (NestedContext (DCK_AbstractClosureExpr 1) 21 sampleFileContext) 5 [];
      @Req_visitEmittedAccessors checker sampleVar ].
Proof. reflexivity. Qed.

(** C9, as the code has it.  When the first invocation has left every enclosing
    closure with a type and the declaration with an interface type, the
    second invocation makes no [typeCheckASTNodeAtLoc] request, each being
    guarded by the check that the type is there.  What it does request is
    what is not guarded: for a variable, the backing type of an attached
    property wrapper and the visit of the emitted accessors.  For any other
    declaration it requests nothing and leaves the annotations, hence every
    type, as they were. *)
Theorem typeCheckDeclAndParentClosures_twice `{TypeChecker}
    (VD : ValueDecl) (st : ASTState) :
  let st1 := tc_state (typeCheckDeclAndParentClosures (Some VD) st) in
  parentClosuresTyped st1 (decl_context VD) ->
  is_Some (interfaceType st1 VD) ->
  let second := typeCheckDeclAndParentClosures (Some VD) st1 in
  List.filter isTypeCheckASTNodeAtLoc (tc_log second) = [] /\
  tc_log second = varDeclRequests VD /\
  (dyn_cast_VarDecl VD = None -> tc_log second = [] /\ tc_state second = st1).
Proof.
  intros st1 Hclosures Htype second.
  destruct (typeCheckDeclAndParentClosures_checked VD st1 Hclosures Htype)
    as [Hlog Hstate].
  subst second. rewrite Hlog.
  split; [apply varDeclRequests_no_typeCheck |].
  split; [done |].
  intros Hvar. split; [| by apply Hstate].
  unfold varDeclRequests. by rewrite Hvar.
Qed.

Lemma typeCheckDeclAndParentClosures_twice_witness :
  let checker := sampleTypeChecker true noSolutions in
  let st1 :=
    tc_state (@typeCheckDeclAndParentClosures checker (Some sampleVar) []) in
  @parentClosuresTyped checker st1 (decl_context sampleVar) /\
  is_Some (@interfaceType checker st1 sampleVar) /\
  List.filter (@isTypeCheckASTNodeAtLoc checker)
    (tc_log (@typeCheckDeclAndParentClosures checker (Some sampleVar) st1))
  = [] /\
  tc_log (@typeCheckDeclAndParentClosures checker (Some sampleVar) st1)
  = [@Req_visitEmittedAccessors checker sampleVar].
Proof.
  intros checker st1.
  assert (@parentClosuresTyped checker st1 (decl_context sampleVar)) as Hc.
  { simpl. repeat split; try (intros [? ?]; discriminate).
    intros _. by eexists. }
  assert (is_Some (@interfaceType checker st1 sampleVar)) as Ht
    by by eexists.
  split; [exact Hc |]. split; [exact Ht |].
  pose proof (@typeCheckDeclAndParentClosures_twice checker sampleVar []
                Hc Ht) as (Hno & Hlog & _).
  split; [exact Hno | exact Hlog].
Defined.

(** ** The references collected from the solver *)

Section Answer.
Context `{TypeChecker} `{SmallVectorGrowth}.

Lemma sawSolutionImpl_app (E : Expr) (Sol : Solution)
  (R : list CursorInfoDeclReference) :
sawSolutionImpl E Sol R = R ++ sawSolutionImpl E Sol [].
Proof.
unfold sawSolutionImpl.
destruct (Value (getSelectedOverloadInfo Sol E)); simpl;
  by rewrite ?app_nil_r.
Qed.

Lemma sawSolutions_app (E : Expr) (sols : list Solution) :
forall R, sawSolutions E sols R = R ++ sawSolutions E sols [].
Proof.
unfold sawSolutions.
induction sols as [| Sol sols IH]; intros R; simpl.
- by rewrite app_nil_r.
- rewrite (IH (sawSolutionImpl E Sol R)), (IH (sawSolutionImpl E Sol [])).
  by rewrite (sawSolutionImpl_app E Sol R), app_assoc.
Qed.

Lemma resultsAfterChecks_extends (E : Expr)
  (Infos : list CursorInfoDeclReference) :
forall R st,
  exists extra, fst (resultsAfterChecks E Infos R st) = R ++ extra.
Proof.
induction Infos as [| Info Infos IH]; intros R st;
  cbn [resultsAfterChecks].
- exists []. simpl. by rewrite app_nil_r.
- destruct (typeCheckDeclAndParentClosures (Some (ReferencedDecl Info)) st)
    as [[u st1] log].
  destruct (IH (sawSolutions E (reportedSolutions log) R) st1)
    as [extra Hextra].
  rewrite Hextra, sawSolutions_app.
  eexists. by rewrite <- app_assoc.
Qed.

Lemma finalResults_extends (E : Expr) (DC : DeclContext) (st : ASTState) :
exists extra,
  fst (finalResults E DC st) = fst (collectResults E DC st) ++ extra.
Proof.
unfold finalResults.
destruct (collectResults E DC st) as [Results1 st1]. simpl.
destruct Results1 as [| r Results1]; [by exists [] |].
apply resultsAfterChecks_extends.
Qed.

(** The loop returns what its checks add to [Results], unless it reads
  through the dangling [ArrayRef]. *)
Lemma typeCheckReferencedDecls_cases (E : Expr)
  (Infos : list CursorInfoDeclReference) :
forall moved R st,
  typeCheckReferencedDecls E Infos moved R st
  = Returned (resultsAfterChecks E Infos R st) \/
  typeCheckReferencedDecls E Infos moved R st = Aborted DanglingArrayRefRead.
Proof.
induction Infos as [| Info Infos IH]; intros moved R st;
  cbn [typeCheckReferencedDecls resultsAfterChecks].
- by left.
- destruct moved; [by right |].
  destruct (typeCheckDeclAndParentClosures (Some (ReferencedDecl Info)) st)
    as [[u st1] log].
  apply IH.
Qed.

Lemma pushesReallocate_same (n : nat) : pushesReallocate n n = false.
Proof. unfold pushesReallocate. by rewrite Nat.sub_diag. Qed.

(** Nothing is read through the [ArrayRef] after a reallocation when the
  checks add no reference. *)
Lemma typeCheckReferencedDecls_no_growth (E : Expr)
  (Infos : list CursorInfoDeclReference) :
forall R st,
  fst (resultsAfterChecks E Infos R st) = R ->
  typeCheckReferencedDecls E Infos false R st
  = Returned (resultsAfterChecks E Infos R st).
Proof.
induction Infos as [| Info Infos IH]; intros R st;
  cbn [typeCheckReferencedDecls resultsAfterChecks]; [done |].
destruct (typeCheckDeclAndParentClosures (Some (ReferencedDecl Info)) st)
  as [[u st1] log].
intros Hsame.
assert (sawSolutions E (reportedSolutions log) R = R) as Hstep.
{ destruct (resultsAfterChecks_extends E Infos
              (sawSolutions E (reportedSolutions log) R) st1)
    as [extra Hextra].
  rewrite Hsame in Hextra.
  rewrite (sawSolutions_app E (reportedSolutions log) R) in Hextra |- *.
  rewrite <- app_assoc in Hextra.
  assert (sawSolutions E (reportedSolutions log) [] ++ extra = []) as Hnil.
  { apply (app_inv_head R). by rewrite app_nil_r. }
  apply app_eq_nil in Hnil as [-> _]. by rewrite app_nil_r. }
rewrite Hstep in Hsame |- *. rewrite pushesReallocate_same.
by apply IH.
Qed.

(** The loop's one read of a one-entry [ArrayRef] comes before any push. *)
Lemma typeCheckReferencedDecls_one (E : Expr) (Info : CursorInfoDeclReference)
  (R : list CursorInfoDeclReference) (st : ASTState) :
typeCheckReferencedDecls E [Info] false R st
= Returned (resultsAfterChecks E [Info] R st).
Proof.
cbn [typeCheckReferencedDecls resultsAfterChecks].
by destruct (typeCheckDeclAndParentClosures (Some (ReferencedDecl Info)) st)
  as [[u st1] log].
Qed.

Lemma loopReadsDangling_one (E : Expr) (DC : DeclContext) (st : ASTState) :
length (fst (collectResults E DC st)) <= 1 ->
loopReadsDangling E DC st = false.
Proof.
unfold loopReadsDangling.
destruct (collectResults E DC st) as [[| r [| r' R]] st1];
  cbn [fst length]; [done | | lia].
intros _. by rewrite typeCheckReferencedDecls_one.
Qed.

Lemma loopReadsDangling_no_growth (E : Expr) (DC : DeclContext)
  (st : ASTState) :
fst (finalResults E DC st) = fst (collectResults E DC st) ->
loopReadsDangling E DC st = false.
Proof.
unfold loopReadsDangling, finalResults.
destruct (collectResults E DC st) as [[| r R] st1]; cbn [fst]; [done |].
intros Hsame.
by rewrite (typeCheckReferencedDecls_no_growth E (r :: R) (r :: R) st1 Hsame).
Qed.

(** [getExprResult] in terms of the references it counts. *)
Lemma getExprResult_finalResults (fuel : nat) (Loc : SourceLoc) (E : Expr)
  (DC : DeclContext) (SF : SourceFile) (Finder : NodeFinder)
  (st : ASTState) :
getExprResult fuel Loc E DC SF Finder st =
if loopReadsDangling E DC st then Aborted DanglingArrayRefRead
else
  match finalResults E DC st with
  | ([Res], st2) =>
      match getShorthandShadowedDecls fuel (ShorthandShadowedDecls Finder)
              (ReferencedDecl Res) with
      | None => RanOutOfFuel
      | Some (Shadowed, _) =>
          Returned
            (Some {| ci_SrcFile := SF; ci_Loc := Loc;
                     ci_ValueD := ReferencedDecl Res;
                     ci_CtorTyRef := None; ci_ExtTyRef := None;
                     ci_IsRef := true; ci_Ty := None;
                     ci_ContainerType := BaseType Res;
                     ci_CustomAttrRef := None;
                     ci_IsKeywordArgument := false;
                     ci_IsDynamic := IsDynamicRef Res;
                     ci_ReceiverTypes := receiverTypesOf Res;
                     ci_ShorthandShadowedDecls := Shadowed |}, st2)
      end
  | (_, st2) => Returned (None, st2)
  end.
Proof.
unfold getExprResult, finalResults, loopReadsDangling.
destruct (collectResults E DC st) as [Results1 st1].
destruct Results1 as [| r Results1]; [done |].
destruct (typeCheckReferencedDecls_cases E (r :: Results1) false
            (r :: Results1) st1) as [-> | ->]; [| done].
by destruct (resultsAfterChecks E _ _ st1) as [Results2 st2].
Qed.

(** What [getExprResult] returns is what it has when no read is
  dangling. *)
Lemma getExprResult_returned (fuel : nat) (Loc : SourceLoc) (E : Expr)
  (DC : DeclContext) (SF : SourceFile) (Finder : NodeFinder)
  (st : ASTState) (a : ResolvedCursorInfoPtr * ASTState) :
getExprResult fuel Loc E DC SF Finder st = Returned a ->
loopReadsDangling E DC st = false.
Proof.
rewrite getExprResult_finalResults.
by destruct (loopReadsDangling E DC st).
Qed.

Lemma getExprResult_not_one (fuel : nat) (Loc : SourceLoc) (E : Expr)
  (DC : DeclContext) (SF : SourceFile) (Finder : NodeFinder)
  (st : ASTState) :
loopReadsDangling E DC st = false ->
length (fst (finalResults E DC st)) <> 1 ->
getExprResult fuel Loc E DC SF Finder st
= Returned (None, snd (finalResults E DC st)).
Proof.
rewrite getExprResult_finalResults. intros ->.
destruct (finalResults E DC st) as [[| r [| r' R]] st2]; simpl; done.
Qed.

(** A dangling read takes two references from the statement and a further
  one from the checks of their declarations. *)
Lemma loopReadsDangling_growth (E : Expr) (DC : DeclContext)
  (st : ASTState) :
loopReadsDangling E DC st = true ->
2 <= length (fst (collectResults E DC st)) /\
length (fst (collectResults E DC st)) < length (fst (finalResults E DC st)).
Proof.
intros Hd. split.
- destruct (le_lt_dec (length (fst (collectResults E DC st))) 1) as [Hle |];
    [| lia].
  rewrite (loopReadsDangling_one E DC st Hle) in Hd. done.
- destruct (finalResults_extends E DC st) as [[| x extra] Hextra].
  + rewrite app_nil_r in Hextra.
    rewrite (loopReadsDangling_no_growth E DC st Hextra) in Hd. done.
  + rewrite Hextra, length_app. simpl. lia.
Qed.

Lemma pushesReallocate_never (n n' : nat) :
(forall k, reallocatesAt k = false) -> pushesReallocate n n' = false.
Proof.
intros Hnever. unfold pushesReallocate.
induction (seq n (n' - n)) as [| k l IH]; simpl; [done |].
by rewrite Hnever, IH.
Qed.

Lemma typeCheckReferencedDecls_never_moved (E : Expr)
  (Infos : list CursorInfoDeclReference) :
(forall k, reallocatesAt k = false) ->
forall R st,
  typeCheckReferencedDecls E Infos false R st
  = Returned (resultsAfterChecks E Infos R st).
Proof.
intros Hnever.
induction Infos as [| Info Infos IH]; intros R st;
  cbn [typeCheckReferencedDecls resultsAfterChecks]; [done |].
destruct (typeCheckDeclAndParentClosures (Some (ReferencedDecl Info)) st)
  as [[u st1] log].
rewrite pushesReallocate_never by done. apply IH.
Qed.


(** The receiver types computed are those the specification words. *)
Lemma receiverTypesOf_spec (Res : CursorInfoDeclReference) :
receiverTypesOf Res = spec_receiverTypeSet (IsDynamicRef Res) (BaseType Res).
Proof.
unfold receiverTypesOf, spec_receiverTypeSet.
destruct (IsDynamicRef Res), (BaseType Res) as [[D | Inst | n] |]; simpl;
  try done.
Qed.

End Answer.

(** ** The answer given to the consumer *)

(** C1.  Two solutions that resolve the located expression to two
    different declarations, and yet the consumer is not handed the null
    pointer: the declarations lie in a closure that has no type, checking
    the first of them has the statement solved again, the two references
    reported again take [Results] past its capacity of three, and the loop
    of [getExprResult] reads its second entry from the buffer that
    [Results] has left. *)
Theorem ambiguity_reads_moved_results :
  let checker := sampleTypeChecker true resolvingAgainSolver in
  @resolve true plainSourceManager noShorthandShadows sampleRefFile
    (NodeFinder_new sampleRefFile 5) = Ok (true, sampleRefFinder) /\
  fst (@collectResults checker sampleRef sampleFileContext [])
  = [mkReference None false sampleLocalOverload;
     mkReference None false sampleOtherLocalOverload] /\
  @getExprResult checker doublingGrowth 0 5 sampleRef sampleFileContext
    sampleRefFile sampleRefFinder [] = Aborted DanglingArrayRefRead /\
  @doneParsing true plainSourceManager noShorthandShadows checker
    doublingGrowth 0 5 (Some sampleRefFile) [] = Aborted DanglingArrayRefRead.
Proof. intros checker. repeat split. Qed.

(** C7.  The expected ways of finding nothing end in no answer, never in a
    fault: when the walk finds no node, [doneParsing] returns without a
    call to the consumer; a solution in which no overload could be resolved
    is skipped, the collected references staying as they were; and when no
    reference was collected, [getExprResult] returns the null pointer, which
    is what [doneParsing] hands the consumer. *)
Theorem nothing_found_is_no_answer (NDEBUG : bool) `{SourceManager}
    `{ShorthandShadows} `{TypeChecker} `{SmallVectorGrowth} (fuel : nat)
    (Loc : SourceLoc)
    (SF : SourceFile) (st : ASTState) (stopped : bool) (Finder : NodeFinder) :
  resolve NDEBUG SF (NodeFinder_new SF Loc) = Ok (stopped, Finder) ->
  (Result Finder = None ->
   doneParsing NDEBUG fuel Loc (Some SF) st = Returned ([], st)) /\
  (forall E Sol Results,
     Value (getSelectedOverloadInfo Sol E) = None ->
     sawSolutionImpl E Sol Results = Results) /\
  (forall E DC,
     Result Finder = Some (NodeFinderExprResult E DC) ->
     fst (collectResults E DC st) = [] ->
     getExprResult fuel Loc E DC SF Finder st
     = Returned (None, snd (collectResults E DC st)) /\
     doneParsing NDEBUG fuel Loc (Some SF) st
     = Returned ([None], snd (collectResults E DC st))).
Proof.
  intros Hwalk. split; [| split].
  - intros Hres. unfold doneParsing. by rewrite Hwalk, Hres.
  - intros E Sol Results Hnone. unfold sawSolutionImpl. by rewrite Hnone.
  - intros E DC Hres Hempty.
    assert (getExprResult fuel Loc E DC SF Finder st
            = Returned (None, snd (collectResults E DC st))) as Hget.
    { unfold getExprResult.
      destruct (collectResults E DC st) as [Results1 st1].
      simpl in Hempty. by subst Results1. }
    split; [exact Hget |].
    unfold doneParsing. by rewrite Hwalk, Hres, Hget.
Qed.

Lemma nothing_found_is_no_answer_witness :
  let checker := sampleTypeChecker true unresolvedSolver in
  @resolve true plainSourceManager noShorthandShadows sampleRefFile
    (NodeFinder_new sampleRefFile 5) = Ok (true, sampleRefFinder) /\
  fst (@collectResults checker sampleRef sampleFileContext []) = [] /\
  @getExprResult checker doublingGrowth 0 5 sampleRef sampleFileContext
    sampleRefFile sampleRefFinder [] = Returned (None, [5]) /\
  @doneParsing true plainSourceManager noShorthandShadows checker
    doublingGrowth 0 5 (Some sampleRefFile) [] = Returned ([None], [5]).
Proof.
  intros checker. split; [reflexivity |]. split; [reflexivity |].
  apply (@nothing_found_is_no_answer true plainSourceManager
           noShorthandShadows checker doublingGrowth 0 5 sampleRefFile []
           true
           sampleRefFinder eq_refl); reflexivity.
Defined.

(** C8.  When [getExprResult] gives an answer, exactly one reference was
    collected, and the answer's receiver types are: for a dynamic reference
    with a base type, the nominal type of the base type, a metatype being
    unwrapped to its instance type first, and nothing if there is no
    nominal type; nothing for a reference that is not dynamic or has no
    base type. *)
Theorem getExprResult_receiver_types `{TypeChecker} `{SmallVectorGrowth}
    (fuel : nat) (Loc : SourceLoc) (E : Expr) (DC : DeclContext) (SF : SourceFile)
    (Finder : NodeFinder) (st st' : ASTState)
    (Info : ResolvedValueRefCursorInfo) :
  getExprResult fuel Loc E DC SF Finder st = Returned (Some Info, st') ->
  exists Res,
    fst (finalResults E DC st) = [Res] /\
    ci_ValueD Info = ReferencedDecl Res /\
    ci_IsDynamic Info = IsDynamicRef Res /\
    ci_ContainerType Info = BaseType Res /\
    ci_ReceiverTypes Info
    = spec_receiverTypeSet (IsDynamicRef Res) (BaseType Res).
Proof.
  rewrite getExprResult_finalResults.
  destruct (loopReadsDangling E DC st); [done |].
  destruct (finalResults E DC st) as [[| Res [| r' R]] st2]; simpl;
    try done.
  destruct (getShorthandShadowedDecls fuel _ _) as [[Shadowed m'] |];
    [| done].
  intros [= <- <-]. exists Res. simpl.
  repeat split. apply receiverTypesOf_spec.
Qed.

Lemma getExprResult_receiver_types_witness :
  let checker := sampleTypeChecker true dynamicSolver in
  @getExprResult checker doublingGrowth 0 5 sampleRef sampleFileContext
    sampleRefFile sampleRefFinder []
  = Returned (Some sampleDynamicAnswer, [30; 5]) /\
  exists Res,
    fst (@finalResults checker sampleRef sampleFileContext []) = [Res] /\
    ci_ValueD sampleDynamicAnswer = ReferencedDecl Res /\
    ci_IsDynamic sampleDynamicAnswer = IsDynamicRef Res /\
    ci_ContainerType sampleDynamicAnswer = BaseType Res /\
    ci_ReceiverTypes sampleDynamicAnswer
    = spec_receiverTypeSet (IsDynamicRef Res) (BaseType Res).
Proof.
  intros checker. split; [reflexivity |].
  apply (@getExprResult_receiver_types checker doublingGrowth 0 5 sampleRef
           sampleFileContext sampleRefFile sampleRefFinder [] [30; 5]
           sampleDynamicAnswer).
  reflexivity.
Defined.

(** C10.  An expression is located and two references are collected for
    it, and yet the consumer's [handleResults] is not called with the null
    pointer: in a build with assertions as well, the call ends in the read
    from the buffer that [Results] has left, before [doneParsing] reaches
    the consumer. *)
Theorem ambiguity_reaches_no_consumer :
  let checker := sampleTypeChecker true resolvingAgainSolver in
  (exists Finder,
     @resolve false plainSourceManager noShorthandShadows sampleRefFile
       (NodeFinder_new sampleRefFile 5) = Ok (true, Finder) /\
     Result Finder = Some (NodeFinderExprResult sampleRef sampleFileContext)) /\
  length (fst (@collectResults checker sampleRef sampleFileContext [])) = 2 /\
  @loopReadsDangling checker doublingGrowth sampleRef sampleFileContext []
  = true /\
  answersOf
    (@doneParsing false plainSourceManager noShorthandShadows checker
       doublingGrowth 0 5 (Some sampleRefFile) []) = None.
Proof.
  intros checker. split; [| by repeat split].
  exists sampleRefFinder. by split.
Qed.

(** ** The scenarios of the specification *)

(** The position is the name of a declaration: the answer is that
    declaration, not a reference, with an empty shadow chain. *)
Example scenario_declaration :
  answersOf
    (@doneParsing false plainSourceManager noShorthandShadows
       (sampleTypeChecker true noSolutions) doublingGrowth 0 5
       (Some sampleFuncFile) [])
  = Some [Some {| ci_SrcFile := sampleFuncFile; ci_Loc := 5;
                  ci_ValueD := sampleFunc;
                  ci_CtorTyRef := None; ci_ExtTyRef := None;
                  ci_IsRef := false; ci_Ty := None;
                  ci_ContainerType := None; ci_CustomAttrRef := None;
                  ci_IsKeywordArgument := false; ci_IsDynamic := false;
                  ci_ReceiverTypes := [];
                  ci_ShorthandShadowedDecls := [] |}].
Proof. reflexivity. Qed.

(** The position is a use of a name bound by [if let x]: the answer is a
    reference to the binding, whose shadow chain is the outer [x]. *)
Example scenario_shorthand_shadow :
  answersOf
    (@doneParsing false plainSourceManager ifLetShadows
       (sampleTypeChecker true shadowSolver) doublingGrowth 1 90
       (Some sampleShadowFile) [])
  = Some [Some {| ci_SrcFile := sampleShadowFile; ci_Loc := 90;
                  ci_ValueD := sampleMiddleX;
                  ci_CtorTyRef := None; ci_ExtTyRef := None;
                  ci_IsRef := true; ci_Ty := None;
                  ci_ContainerType := None; ci_CustomAttrRef := None;
                  ci_IsKeywordArgument := false; ci_IsDynamic := false;
                  ci_ReceiverTypes := [];
                  ci_ShorthandShadowedDecls := [sampleOuterX] |}].
Proof. reflexivity. Qed.

(** The position is a dynamic reference to a method on the metatype of a
    class: the receiver types are that class. *)
Example scenario_dynamic_reference :
  answersOf
    (@doneParsing false plainSourceManager noShorthandShadows
       (sampleTypeChecker true dynamicSolver) doublingGrowth 0 5
       (Some sampleRefFile) [])
  = Some [Some sampleDynamicAnswer].
Proof. reflexivity. Qed.

(** * Further properties *)

(** ** The shadow map *)

Lemma reaches_first (m : ShadowMap) (k k' : nat) :
  reaches m k k' ->
  exists Sh, m !! k = Some (Some Sh) /\
             (decl_id Sh = k' \/ reaches m (decl_id Sh) k').
Proof. destruct 1 as [k Sh Hk | k Sh k' Hk Hmore]; eauto. Qed.

Lemma shadow_loop_diverges (m : ShadowMap) (k0 : nat) (fuel : nat) :
  forall cur acc,
    reaches m (decl_id cur) k0 -> reaches m k0 k0 ->
    shadow_loop fuel m (Some cur) acc = None.
Proof.
  induction fuel as [| fuel IH]; intros cur acc Hreach Hcycle; [done |].
  simpl. unfold shadow_index.
  destruct (reaches_first _ _ _ Hreach) as (Sh & Hk & [Heq | Hmore]);
    rewrite Hk.
  - apply IH; [| done]. by rewrite Heq.
  - by apply IH.
Qed.

(** X1.  When following the shadow map from a declaration comes back to
    that declaration, the loop of [getShorthandShadowedDecls] never
    finishes: no number of iterations is enough. *)
Theorem getShorthandShadowedDecls_cycle (m : ShadowMap) (D : ValueDecl)
    (fuel : nat) :
  reaches m (decl_id D) (decl_id D) ->
  getShorthandShadowedDecls fuel m D = None.
Proof.
  intros Hcycle. unfold getShorthandShadowedDecls, shadow_index.
  destruct (reaches_first _ _ _ Hcycle) as (Sh & Hk & [Heq | Hmore]);
    rewrite Hk.
  - destruct fuel as [| fuel]; [done |].
    apply (shadow_loop_diverges m (decl_id D)); [| done].
    rewrite Heq. exact Hcycle.
  - destruct fuel as [| fuel]; [done |].
    by apply (shadow_loop_diverges m (decl_id D)).
Qed.

Lemma getShorthandShadowedDecls_cycle_witness :
  reaches cyclicShadows (decl_id sampleInnerX) (decl_id sampleInnerX) /\
  getShorthandShadowedDecls 1000 cyclicShadows sampleInnerX = None.
Proof.
  assert (reaches cyclicShadows (decl_id sampleInnerX) (decl_id sampleInnerX))
    as Hcycle.
  { apply (reaches_more cyclicShadows 52 sampleMiddleX); [reflexivity |].
    apply (reaches_step cyclicShadows 51 sampleInnerX). reflexivity. }
  split; [exact Hcycle |].
  exact (getShorthandShadowedDecls_cycle cyclicShadows sampleInnerX 1000
           Hcycle).
Defined.

Lemma shadow_loop_again (fuel : nat) : forall m cur acc l m',
  shadow_loop fuel m cur acc = Some (l, m') ->
  m ⊆ m' /\
  (forall k Sh, m' !! k = Some (Some Sh) -> m !! k = Some (Some Sh)) /\
  shadow_loop fuel m' cur acc = Some (l, m').
Proof.
  induction fuel as [| fuel IH]; intros m cur acc l m' Hloop.
  - destruct cur as [d |]; [done |]. simpl in *.
    injection Hloop as <- <-. done.
  - destruct cur as [d |]; simpl in *.
    + unfold shadow_index in *.
      destruct (m !! decl_id d) as [v |] eqn:Hd.
      * destruct (IH _ _ _ _ _ Hloop) as (Hsub & Hsame & Hagain).
        split; [done |]. split; [done |].
        by rewrite (lookup_weaken _ _ _ _ Hd Hsub).
      * destruct fuel as [| fuel']; simpl in Hloop;
          injection Hloop as <- <-;
          (split; [by apply insert_subseteq |]);
          (split;
           [intros k Sh Hk; apply lookup_insert_Some in Hk
                as [[_ [=]] | [_ Hk]]; done |]);
          by rewrite lookup_insert_eq.
    + injection Hloop as <- <-. done.
Qed.

(** X2.  [getShorthandShadowedDecls] reads the map with [operator[]], which
    may add entries; what it adds is null entries only, every entry that was
    there stays, and asking again on the map it leaves gives the same chain
    and changes the map no more. *)
Theorem getShorthandShadowedDecls_again (fuel : nat) (m m' : ShadowMap)
    (D : ValueDecl) (chain : list ValueDecl) :
  getShorthandShadowedDecls fuel m D = Some (chain, m') ->
  m ⊆ m' /\
  (forall k Sh, m' !! k = Some (Some Sh) -> m !! k = Some (Some Sh)) /\
  getShorthandShadowedDecls fuel m' D = Some (chain, m').
Proof.
  unfold getShorthandShadowedDecls, shadow_index.
  destruct (m !! decl_id D) as [v |] eqn:HD.
  - intros Hloop.
    destruct (shadow_loop_again _ _ _ _ _ _ Hloop) as (Hsub & Hsame & Hagain).
    split; [done |]. split; [done |].
    by rewrite (lookup_weaken _ _ _ _ HD Hsub).
  - simpl. destruct fuel; simpl; intros [= <- <-];
      (split; [by apply insert_subseteq |]);
      (split;
       [intros k Sh Hk; apply lookup_insert_Some in Hk
            as [[_ [=]] | [_ Hk]]; done |]);
      by rewrite lookup_insert_eq.
Qed.

Lemma getShorthandShadowedDecls_again_witness :
  getShorthandShadowedDecls 2 sampleShadows sampleInnerX
  = Some ([sampleMiddleX; sampleOuterX], <[50 := None]> sampleShadows) /\
  getShorthandShadowedDecls 2 (<[50 := None]> sampleShadows) sampleInnerX
  = Some ([sampleMiddleX; sampleOuterX], <[50 := None]> sampleShadows).
Proof.
  assert (getShorthandShadowedDecls 2 sampleShadows sampleInnerX
          = Some ([sampleMiddleX; sampleOuterX], <[50 := None]> sampleShadows))
    as Hfirst by reflexivity.
  split; [exact Hfirst |].
  apply (getShorthandShadowedDecls_again 2 sampleShadows _ sampleInnerX _
           Hfirst).
Defined.

(** X3.  In a build with assertions, recording shorthand shadows succeeds
    only for shadowing declarations that are new to the map and pairwise
    different; every entry that was in the map stays, and each recorded
    shadowing declaration then maps to the declaration it shadows. *)
Theorem recordShadows_checked (l : list (ValueDecl * ValueDecl))
    (m m' : ShadowMap) :
  recordShadows false l m = Ok m' ->
  NoDup (decl_id <$> (fst <$> l)) /\
  (forall first second, (first, second) ∈ l -> m !! decl_id first = None) /\
  m ⊆ m' /\
  (forall first second,
     (first, second) ∈ l -> m' !! decl_id first = Some (Some second)).
Proof.
  revert m. induction l as [| [first second] l IH]; intros m Hrec;
    simpl in Hrec.
  - injection Hrec as <-. split; [constructor |]. split; [| split].
    + intros first second Hin. by apply elem_of_nil in Hin.
    + done.
    + intros first second Hin. by apply elem_of_nil in Hin.
  - unfold assert in Hrec. simpl in Hrec.
    destruct (bool_decide (m !! decl_id first = None)) eqn:Hfresh; [| done].
    apply bool_decide_eq_true in Hfresh.
    destruct (IH _ Hrec) as (Hnd & Hnew & Hsub & Hread).
    assert (m ⊆ m') as Hsub'.
    { etrans; [| exact Hsub]. by apply insert_subseteq. }
    assert (m' !! decl_id first = Some (Some second)) as Hfirst.
    { apply (lookup_weaken _ _ _ _ (lookup_insert_eq m (decl_id first) _) Hsub). }
    split; [| split; [| split]].
    + simpl. constructor; [| exact Hnd].
      intros Hin. apply list_elem_of_fmap in Hin as (d & Hd & Hin).
      apply list_elem_of_fmap in Hin as ([d1 d2] & -> & Hin).
      specialize (Hnew _ _ Hin). simpl in Hd. rewrite <- Hd in Hnew.
      by rewrite lookup_insert_eq in Hnew.
    + intros f s' [[= -> ->] | Hin]%elem_of_cons; [done |].
      specialize (Hnew _ _ Hin).
      apply lookup_insert_None in Hnew. tauto.
    + exact Hsub'.
    + intros f s' [[= -> ->] | Hin]%elem_of_cons; [done |].
      by eapply Hread.
Qed.

Lemma recordShadows_checked_witness :
  recordShadows false
    [(sampleInnerX, sampleMiddleX); (sampleMiddleX, sampleOuterX)] ∅
  = Ok sampleShadows /\
  (forall first second,
     (first, second)
       ∈ [(sampleInnerX, sampleMiddleX); (sampleMiddleX, sampleOuterX)] ->
     sampleShadows !! decl_id first = Some (Some second)).
Proof.
  assert (recordShadows false
            [(sampleInnerX, sampleMiddleX); (sampleMiddleX, sampleOuterX)] ∅
          = Ok sampleShadows) as Hrec.
  { reflexivity. }
  split; [exact Hrec |].
  apply (recordShadows_checked _ _ _ Hrec).
Defined.

(** ** More on the walk *)

Section WalkMore.
Variable NDEBUG : bool.
Context `{SourceManager} `{ShorthandShadows}.

Lemma walkAll_context (cs : list ASTNode) :
  Forall (fun n => forall F b F',
            walkNode NDEBUG n F = Ok (b, F') -> Result F = None ->
            resultContextOnTop F') cs ->
  forall F b F',
    walkAll (walkNode NDEBUG) cs F = Ok (b, F') -> Result F = None ->
    resultContextOnTop F'.
Proof.
  induction 1 as [| n cs Hn _ IH]; intros F b F' Hw HR; simpl in Hw.
  - injection Hw as <- <-. unfold resultContextOnTop. by rewrite HR.
  - destruct (walkNode NDEBUG n F) as [[b1 F1] | f] eqn:Hn1; [| done].
    destruct b1.
    + injection Hw as <- <-. by eapply Hn.
    + apply walkNode_Ok in Hn1; [| done].
      destruct (walk_post_not_stopped _ _ _ Hn1) as (HR1 & _).
      by eapply IH.
Qed.

Lemma walkNode_context (n : ASTNode) : forall F b F',
  walkNode NDEBUG n F = Ok (b, F') -> Result F = None ->
  resultContextOnTop F'.
Proof.
  induction n as [D cs IH | E cs IH | St cs IH] using ASTNode_tree_ind;
    intros F b F' Hw HR;
    pose proof (walkNode_Ok NDEBUG _ _ _ _ Hw HR) as Hpost;
    simpl in Hw; unfold traverse in Hw.
  - destruct (walkToDeclPre NDEBUG D F) as [[a F1] | f] eqn:Hpre; [| done].
    apply walkToDeclPre_Ok in Hpre.
    destruct (enterDecl_fields D F) as (_ & HR1 & _ & HS1).
    destruct a.
    + destruct Hpre as (_ & _ & ->). injection Hw as <- <-.
      unfold resultContextOnTop. simpl. intros newDC HDC.
      rewrite HS1, HDC. simpl. apply last_snoc.
    + destruct Hpre as (_ & ->). injection Hw as <- <-.
      unfold resultContextOnTop. by rewrite HR.
    + destruct Hpre as (_ & _ & ->).
      destruct (walkAll _ cs (enterDecl D F)) as [[b2 F2] | f] eqn:Hcs;
        [| done].
      destruct b2.
      * injection Hw as <- <-.
        apply (walkAll_context cs IH _ _ _ Hcs). by rewrite HR1.
      * destruct (walkToDeclPost NDEBUG D F2) as [[a3 F3] | f] eqn:Hp;
          [| done].
        apply walkToDeclPost_Ok in Hp as (-> & _). injection Hw as <- <-.
        destruct (walk_post_not_stopped _ _ _ Hpost) as (HR3 & _).
        unfold resultContextOnTop. by rewrite HR3.
  - destruct (walkToExprPre NDEBUG E F) as [[a F1] | f] eqn:Hpre; [| done].
    apply walkToExprPre_Ok in Hpre as (_ & _ & Hpre).
    destruct a.
    + destruct Hpre as (_ & DC & Hlast & HRes). injection Hw as <- <-.
      unfold resultContextOnTop. by rewrite HRes.
    + done.
    + destruct Hpre as (_ & HR1).
      destruct (walkAll _ cs F1) as [[b2 F2] | f] eqn:Hcs; [| done].
      destruct b2.
      * injection Hw as <- <-.
        apply (walkAll_context cs IH _ _ _ Hcs). congruence.
      * destruct (walkToExprPost NDEBUG E F2) as [[a3 F3] | f] eqn:Hp;
          [| done].
        apply walkToExprPost_Ok in Hp as (-> & _). injection Hw as <- <-.
        destruct (walk_post_not_stopped _ _ _ Hpost) as (HR3 & _).
        unfold resultContextOnTop. by rewrite HR3.
  - destruct (walkToStmtPre NDEBUG St F) as [[a F1] | f] eqn:Hpre; [| done].
    apply walkToStmtPre_Ok in Hpre as (-> & _ & HR1 & _).
    destruct (walkAll _ cs F1) as [[b2 F2] | f] eqn:Hcs; [| done].
    unfold walkToStmtPost in Hw.
    destruct b2; injection Hw as <- <-;
      apply (walkAll_context cs IH _ _ _ Hcs); congruence.
Qed.

End WalkMore.

Lemma In_flat_map_Forall {A B C} (f : A -> list B) (g : A -> list C)
    (l : list A) (y : B) (z : C) :
  Forall (fun x => In y (f x) -> In z (g x)) l ->
  In y (flat_map f l) -> In z (flat_map g l).
Proof.
  induction 1 as [| x l Hx _ IH]; simpl; [done |].
  rewrite !in_app_iff. tauto.
Qed.

Lemma entered_decl_in_tree `{SourceManager} (Loc : SourceLoc) (D : Decl)
    (n : ASTNode) :
  In (CandidateDecl D) (enteredNodes Loc n) ->
  In D (declarations n) /\
  containsRespectingReplacedRanges (decl_rangeIncludingAttrs D) Loc = true.
Proof.
  induction n as [D0 cs IH | E cs IH | St cs IH] using ASTNode_tree_ind;
    simpl.
  - destruct (containsRespectingReplacedRanges (decl_rangeIncludingAttrs D0)
                Loc) eqn:Hin; [| done].
    intros [[= <-] | Hrest]; [split; [by left | done] |].
    apply in_flat_map in Hrest as (c & Hc & Hrest).
    rewrite Forall_forall in IH.
    destruct (IH c (proj2 (list_elem_of_In _ _) Hc) Hrest) as [HD Hr].
    split; [| done]. right. apply in_flat_map. eauto.
  - intros [[=] | Hrest].
    apply in_flat_map in Hrest as (c & Hc & Hrest).
    rewrite Forall_forall in IH.
    destruct (IH c (proj2 (list_elem_of_In _ _) Hc) Hrest) as [HD Hr].
    split; [| done]. apply in_flat_map. eauto.
  - intros Hrest.
    apply in_flat_map in Hrest as (c & Hc & Hrest).
    rewrite Forall_forall in IH.
    destruct (IH c (proj2 (list_elem_of_In _ _) Hc) Hrest) as [HD Hr].
    split; [| done]. apply in_flat_map. eauto.
Qed.

Lemma entered_expr_in_tree `{SourceManager} (Loc : SourceLoc) (E : Expr)
    (n : ASTNode) :
  In (CandidateExpr E) (enteredNodes Loc n) -> In E (expressions n).
Proof.
  induction n as [D0 cs IH | E0 cs IH | St cs IH] using ASTNode_tree_ind;
    simpl.
  - destruct (containsRespectingReplacedRanges (decl_rangeIncludingAttrs D0)
                Loc) eqn:Hin; [| done].
    intros [[=] | Hrest].
    apply in_flat_map in Hrest as (c & Hc & Hrest).
    rewrite Forall_forall in IH.
    apply in_flat_map. exists c. split; [done |].
    by apply IH; [apply list_elem_of_In |].
  - intros [[= <-] | Hrest]; [by left |].
    apply in_flat_map in Hrest as (c & Hc & Hrest).
    rewrite Forall_forall in IH.
    right. apply in_flat_map. exists c. split; [done |].
    by apply IH; [apply list_elem_of_In |].
  - intros Hrest.
    apply in_flat_map in Hrest as (c & Hc & Hrest).
    rewrite Forall_forall in IH.
    apply in_flat_map. exists c. split; [done |].
    by apply IH; [apply list_elem_of_In |].
Qed.

(** X4.  What the finder reports is a node of the tree that obeys the
    match rule: a declaration of the file whose source range contains the
    position, whose location is the position, which is a named value
    declaration and no parameter; or an expression of the file whose
    location is the position and whose kind is [DeclRef], [UnresolvedDot]
    or [UnresolvedDeclRef]. *)
Theorem resolve_result_sound (NDEBUG : bool) `{SourceManager}
    `{ShorthandShadows} (SrcFile : SourceFile) (F : NodeFinder)
    (stopped : bool) (F' : NodeFinder) :
  Result F = None ->
  resolve NDEBUG SrcFile F = Ok (stopped, F') ->
  (forall D,
     Result F' = Some (NodeFinderDeclResult D) ->
     In D (flat_map declarations (sf_items SrcFile)) /\
     containsRespectingReplacedRanges (decl_rangeIncludingAttrs D)
       (LocToResolve F) = true /\
     decl_loc D = LocToResolve F /\
     isValueDeclKind (decl_kind D) = true /\ decl_hasName D = true /\
     isa_ParamDecl D = false) /\
  (forall E DC,
     Result F' = Some (NodeFinderExprResult E DC) ->
     In E (flat_map expressions (sf_items SrcFile)) /\
     expr_loc E = LocToResolve F /\
     (expr_kind E = EK_DeclRef \/ expr_kind E = EK_UnresolvedDot \/
      expr_kind E = EK_UnresolvedDeclRef)).
Proof.
  intros HR Hw.
  destruct (resolve_Ok NDEBUG SrcFile F stopped F' Hw HR)
    as (_ & _ & _ & _ & Hres).
  destruct (find _ _) as [c |] eqn:Hfind.
  - apply find_some in Hfind as [Hin Hmatch].
    apply in_flat_map in Hin as (n & Hn & Hin).
    destruct c as [D0 | E0]; simpl in Hres, Hmatch.
    + split.
      * intros D HD. rewrite HD in Hres. injection Hres as ->.
        apply entered_decl_in_tree in Hin as [Hin Hrange].
        apply matchRule_decl_true in Hmatch as (Hloc & Hname & Hparam).
        unfold carriesName in Hname. apply andb_true_iff in Hname as [? ?].
        repeat split; try done.
        apply in_flat_map. eauto.
      * intros E DC HE. by rewrite HE in Hres.
    + destruct Hres as [DC0 Hres]. split.
      * intros D HD. by rewrite HD in Hres.
      * intros E DC HE. rewrite HE in Hres. injection Hres as -> ->.
        apply entered_expr_in_tree in Hin.
        apply matchRule_expr_true in Hmatch as (Hloc & Hkind).
        repeat split; try done.
        apply in_flat_map. eauto.
  - simpl in Hres. split.
    + intros D HD. by rewrite HD in Hres.
    + intros E DC HE. by rewrite HE in Hres.
Qed.

Lemma resolve_result_sound_witness :
  Result (NodeFinder_new sampleDotFile 5) = None /\
  @resolve false plainSourceManager noShorthandShadows sampleDotFile
    (NodeFinder_new sampleDotFile 5)
  = Ok (true,
        set_Result (Some (NodeFinderExprResult sampleDot sampleFileContext))
          (NodeFinder_new sampleDotFile 5)) /\
  In sampleDot (flat_map expressions (sf_items sampleDotFile)) /\
  expr_loc sampleDot = 5 /\
  (expr_kind sampleDot = EK_DeclRef \/
   expr_kind sampleDot = EK_UnresolvedDot \/
   expr_kind sampleDot = EK_UnresolvedDeclRef).
Proof.
  split; [reflexivity |]. split; [reflexivity |].
  apply (proj2
           (@resolve_result_sound false plainSourceManager noShorthandShadows
              sampleDotFile (NodeFinder_new sampleDotFile 5) true
              (set_Result
                 (Some (NodeFinderExprResult sampleDot sampleFileContext))
                 (NodeFinder_new sampleDotFile 5)) eq_refl eq_refl)
           sampleDot sampleFileContext).
  reflexivity.
Defined.

(** X5.  After a walk, the declaration context kept with a found expression
    is the context on top of the finder's stack, the innermost one the
    walk had entered when it stopped; and a found declaration that is
    itself a declaration context is on top of the stack. *)
Theorem resolve_context_on_top (NDEBUG : bool) `{SourceManager}
    `{ShorthandShadows} (SrcFile : SourceFile) (F : NodeFinder)
    (stopped : bool) (F' : NodeFinder) :
  Result F = None ->
  resolve NDEBUG SrcFile F = Ok (stopped, F') ->
  (forall E DC,
     Result F' = Some (NodeFinderExprResult E DC) ->
     last (DeclContextStack F') = Some DC) /\
  (forall D newDC,
     Result F' = Some (NodeFinderDeclResult D) ->
     dyn_cast_DeclContext D = Some newDC ->
     last (DeclContextStack F') = Some newDC).
Proof.
  intros HR Hw.
  assert (resultContextOnTop F') as Htop.
  { unfold resolve in Hw.
    apply (walkAll_context NDEBUG (sf_items SrcFile)) in Hw; [done | | done].
    apply Forall_forall. intros n _. apply walkNode_context. }
  unfold resultContextOnTop in Htop. split.
  - intros E DC HE. by rewrite HE in Htop.
  - intros D newDC HD Hctx. rewrite HD in Htop. by apply Htop.
Qed.

Lemma resolve_context_on_top_witness :
  Result (NodeFinder_new sampleFuncFile 5) = None /\
  @resolve false plainSourceManager noShorthandShadows sampleFuncFile
    (NodeFinder_new sampleFuncFile 5) = Ok (true, sampleFuncFinder) /\
  last (DeclContextStack sampleFuncFinder)
  = Some (NestedContext DCK_Decl 10 sampleFileContext).
Proof.
  split; [reflexivity |]. split; [reflexivity |].
  apply (proj2
           (@resolve_context_on_top false plainSourceManager
              noShorthandShadows sampleFuncFile
              (NodeFinder_new sampleFuncFile 5) true sampleFuncFinder
              eq_refl eq_refl) sampleFunc);
    reflexivity.
Defined.

(** X6.  A walk started on a fresh finder keeps the finder's own
    assertions: it never finds a result already set when it sets one, never
    pops a context other than the one it pushed, and never reads an empty
    stack.  The one fault it can end in is a shadowing declaration recorded
    twice, and only in a build with assertions. *)
Theorem resolve_fresh_fault (NDEBUG : bool) `{SourceManager}
    `{ShorthandShadows} (SrcFile : SourceFile) (Loc : SourceLoc)
    (f : Fault) :
  resolve NDEBUG SrcFile (NodeFinder_new SrcFile Loc) = Faulted f ->
  f = AssertionFailed Assert_ShadowKeyIsFresh /\ NDEBUG = false.
Proof.
  intros Hw.
  by apply (resolve_fault NDEBUG SrcFile (NodeFinder_new SrcFile Loc) f Hw).
Qed.

Lemma resolve_fresh_fault_witness :
  @resolve false plainSourceManager duplicateShadows sampleShadowFile
    (NodeFinder_new sampleShadowFile 90)
  = Faulted (AssertionFailed Assert_ShadowKeyIsFresh) /\
  AssertionFailed Assert_ShadowKeyIsFresh
  = AssertionFailed Assert_ShadowKeyIsFresh /\
  false = false.
Proof.
  split; [reflexivity |].
  apply (@resolve_fresh_fault false plainSourceManager duplicateShadows
           sampleShadowFile 90 (AssertionFailed Assert_ShadowKeyIsFresh)).
  reflexivity.
Defined.

(** ** Builds with and without assertions *)

Section Release.
Context `{SourceManager} `{ShorthandShadows}.

Lemma assert_release (cond : bool) (a : Assertion) :
  assert false cond a = Ok tt -> assert true cond a = Ok tt.
Proof. done. Qed.

Lemma recordShadows_release (l : list (ValueDecl * ValueDecl)) :
  forall m m',
    recordShadows false l m = Ok m' -> recordShadows true l m = Ok m'.
Proof.
  induction l as [| [first second] l IH]; intros m m'; simpl; [done |].
  unfold assert. simpl.
  destruct (bool_decide (m !! decl_id first = None)); [apply IH | done].
Qed.

Lemma pop_back_expecting_release (DC : DeclContext) (F F' : NodeFinder) :
  pop_back_expecting false DC F = Ok F' ->
  pop_back_expecting true DC F = Ok F'.
Proof.
  unfold pop_back_expecting, assert. simpl.
  destruct (last (DeclContextStack F)); [| done].
  by destruct (bool_decide _).
Qed.

Lemma walkToDeclPre_release (D : Decl) (F : NodeFinder) r :
  walkToDeclPre false D F = Ok r -> walkToDeclPre true D F = Ok r.
Proof.
  unfold walkToDeclPre, assert. simpl.
  repeat (match goal with
          | |- context [if ?c then _ else _] => destruct c
          | |- context [match ?x with _ => _ end] => destruct x
          end; simpl; try done).
Qed.

Lemma walkToDeclPost_release (D : Decl) (F : NodeFinder) r :
  walkToDeclPost false D F = Ok r -> walkToDeclPost true D F = Ok r.
Proof.
  unfold walkToDeclPost.
  destruct (dyn_cast_DeclContext D) as [newDC |]; [| done].
  destruct (pop_back_expecting false newDC F) as [F1 | f] eqn:Hpop; [| done].
  by rewrite (pop_back_expecting_release _ _ _ Hpop).
Qed.

Lemma walkToExprPost_release (E : Expr) (F : NodeFinder) r :
  walkToExprPost false E F = Ok r -> walkToExprPost true E F = Ok r.
Proof.
  unfold walkToExprPost.
  destruct (dyn_cast_ClosureExpr E) as [closure |]; [| done].
  destruct (pop_back_expecting false closure F) as [F1 | f] eqn:Hpop;
    [| done].
  by rewrite (pop_back_expecting_release _ _ _ Hpop).
Qed.

Lemma walkToExprPre_release (E : Expr) (F : NodeFinder) r :
  walkToExprPre false E F = Ok r -> walkToExprPre true E F = Ok r.
Proof.
  unfold walkToExprPre. fold (enterExpr E F).
  assert (forall F2,
            (if isa_CaptureListExpr E
             then match getCurrentDeclContext (enterExpr E F) with
                  | Ok DC =>
                      match recordShadows false
                              (getShorthandShadows_CaptureList E DC)
                              (ShorthandShadowedDecls (enterExpr E F)) with
                      | Ok m => Ok (set_shadows m (enterExpr E F))
                      | Faulted f => Faulted f
                      end
                  | Faulted f => Faulted f
                  end
             else Ok (enterExpr E F)) = Ok F2 ->
            (if isa_CaptureListExpr E
             then match getCurrentDeclContext (enterExpr E F) with
                  | Ok DC =>
                      match recordShadows true
                              (getShorthandShadows_CaptureList E DC)
                              (ShorthandShadowedDecls (enterExpr E F)) with
                      | Ok m => Ok (set_shadows m (enterExpr E F))
                      | Faulted f => Faulted f
                      end
                  | Faulted f => Faulted f
                  end
             else Ok (enterExpr E F)) = Ok F2) as Hsh.
  { intros F2. destruct (isa_CaptureListExpr E); [| done].
    destruct (getCurrentDeclContext (enterExpr E F)) as [DC | f]; [| done].
    destruct (recordShadows false _ _) as [m | f] eqn:Hrec; [| done].
    by rewrite (recordShadows_release _ _ _ Hrec). }
  destruct (if isa_CaptureListExpr E then _ else _) as [F2 | f] eqn:Hfalse
    in |- * at 1; [| done].
  rewrite (Hsh F2 Hfalse).
  unfold assert. simpl.
  destruct (negb (expr_loc E =? LocToResolve F2)); [done |].
  destruct (expr_kind E); try done;
    by destruct (bool_decide (Result F2 = None)).
Qed.

Lemma walkToStmtPre_release (St : Stmt) (F : NodeFinder) r :
  walkToStmtPre false St F = Ok r -> walkToStmtPre true St F = Ok r.
Proof.
  unfold walkToStmtPre.
  destruct (isa_LabeledConditionalStmt St); [| done].
  destruct (getCurrentDeclContext F) as [DC | f]; [| done].
  destruct (recordShadows false _ _) as [m | f] eqn:Hrec; [| done].
  by rewrite (recordShadows_release _ _ _ Hrec).
Qed.

Lemma traverse_release Pre Pre' Children Children' Post Post' F r :
  (forall r1, Pre F = Ok r1 -> Pre' F = Ok r1) ->
  (forall F1 r1, Children F1 = Ok r1 -> Children' F1 = Ok r1) ->
  (forall F1 r1, Post F1 = Ok r1 -> Post' F1 = Ok r1) ->
  traverse Pre Children Post F = Ok r ->
  traverse Pre' Children' Post' F = Ok r.
Proof.
  intros HPre HChildren HPost. unfold traverse.
  destruct (Pre F) as [[a F1] | f] eqn:Hpre; [| done].
  rewrite (HPre _ eq_refl).
  destruct a; try done.
  destruct (Children F1) as [[b2 F2] | f] eqn:Hcs; [| done].
  rewrite (HChildren _ _ Hcs).
  destruct b2; [done |].
  destruct (Post F2) as [[a3 F3] | f] eqn:Hpost; [| done].
  by rewrite (HPost _ _ Hpost).
Qed.

Lemma walkAll_release (cs : list ASTNode) :
  Forall (fun n => forall F r,
            walkNode false n F = Ok r -> walkNode true n F = Ok r) cs ->
  forall F r,
    walkAll (walkNode false) cs F = Ok r ->
    walkAll (walkNode true) cs F = Ok r.
Proof.
  induction 1 as [| n cs Hn _ IH]; intros F r; simpl; [done |].
  destruct (walkNode false n F) as [[b1 F1] | f] eqn:Hn1; [| done].
  rewrite (Hn _ _ Hn1).
  destruct b1; [done | apply IH].
Qed.

Lemma walkNode_release (n : ASTNode) : forall F r,
  walkNode false n F = Ok r -> walkNode true n F = Ok r.
Proof.
  induction n as [D cs IH | E cs IH | St cs IH] using ASTNode_tree_ind;
    intros F r; simpl; apply traverse_release;
    auto using walkToDeclPre_release, walkToDeclPost_release,
      walkToExprPre_release, walkToExprPost_release, walkToStmtPre_release,
      walkAll_release.
Qed.

End Release.

(** X7.  The assertions only check: whenever the walk of a build with
    assertions returns, the walk of a build without them returns the same
    finder and the same answer to whether it was stopped. *)
Theorem resolve_release_agrees `{SourceManager} `{ShorthandShadows}
    (SrcFile : SourceFile) (F : NodeFinder) (stopped : bool)
    (F' : NodeFinder) :
  resolve false SrcFile F = Ok (stopped, F') ->
  resolve true SrcFile F = Ok (stopped, F').
Proof.
  unfold resolve. apply walkAll_release.
  apply Forall_forall. intros n _. apply walkNode_release.
Qed.

Lemma resolve_release_agrees_witness :
  @resolve false plainSourceManager ifLetShadows sampleShadowFile
    (NodeFinder_new sampleShadowFile 90)
  = Ok (true,
        set_Result (Some (NodeFinderExprResult sampleUse sampleFileContext))
          (set_shadows (<[51 := Some sampleOuterX]> ∅)
             (NodeFinder_new sampleShadowFile 90))) /\
  @resolve true plainSourceManager ifLetShadows sampleShadowFile
    (NodeFinder_new sampleShadowFile 90)
  = Ok (true,
        set_Result (Some (NodeFinderExprResult sampleUse sampleFileContext))
          (set_shadows (<[51 := Some sampleOuterX]> ∅)
             (NodeFinder_new sampleShadowFile 90))).
Proof.
  split; [reflexivity |].
  apply (@resolve_release_agrees plainSourceManager ifLetShadows
           sampleShadowFile (NodeFinder_new sampleShadowFile 90)).
  reflexivity.
Defined.

(** ** The shadows recorded by a walk *)

Section Recorded.
Context `{SourceManager} `{ShorthandShadows}.

Lemma recordShadows_subseteq (l : list (ValueDecl * ValueDecl)) :
  forall m m', recordShadows false l m = Ok m' -> m ⊆ m'.
Proof.
  induction l as [| [first second] l IH]; intros m m'; simpl.
  - by intros [= <-].
  - unfold assert. simpl.
    destruct (bool_decide (m !! decl_id first = None)) eqn:Hfresh; [| done].
    apply bool_decide_eq_true in Hfresh.
    intros Hrec. etrans; [| by apply IH]. by apply insert_subseteq.
Qed.

Lemma walkToExprPre_shadows (E : Expr) (F : NodeFinder) a F' :
  walkToExprPre false E F = Ok (a, F') ->
  ShorthandShadowedDecls F ⊆ ShorthandShadowedDecls F'.
Proof.
  unfold walkToExprPre. fold (enterExpr E F).
  destruct (enterExpr_fields E F) as (_ & _ & HM & _).
  set (shadowed := if isa_CaptureListExpr E then _ else _).
  assert (forall F2, shadowed = Ok F2 ->
            ShorthandShadowedDecls F ⊆ ShorthandShadowedDecls F2) as Hsh.
  { subst shadowed. intros F2. destruct (isa_CaptureListExpr E).
    - destruct (getCurrentDeclContext (enterExpr E F)); [| done].
      destruct (recordShadows _ _ _) as [m |] eqn:Hrec; [| done].
      intros [= <-]. simpl. rewrite <- HM.
      by apply (recordShadows_subseteq _ _ _ Hrec).
    - intros [= <-]. by rewrite HM. }
  destruct shadowed as [F2 | f]; [| done].
  specialize (Hsh F2 eq_refl).
  destruct (negb (expr_loc E =? LocToResolve F2)); [by intros [= <- <-] |].
  destruct (expr_kind E); try (by intros [= <- <-]);
    (destruct (assert false _ _); [| done];
     destruct (getCurrentDeclContext F2); [| done];
     by intros [= <- <-]).
Qed.

Lemma walkToStmtPre_shadows (St : Stmt) (F : NodeFinder) a F' :
  walkToStmtPre false St F = Ok (a, F') ->
  ShorthandShadowedDecls F ⊆ ShorthandShadowedDecls F'.
Proof.
  unfold walkToStmtPre.
  destruct (isa_LabeledConditionalStmt St); [| by intros [= <- <-]].
  destruct (getCurrentDeclContext F); [| done].
  destruct (recordShadows _ _ _) as [m |] eqn:Hrec; [| done].
  intros [= <- <-]. simpl. by apply (recordShadows_subseteq _ _ _ Hrec).
Qed.

Lemma walkAll_shadows (cs : list ASTNode) :
  Forall (fun n => forall F b F',
            walkNode false n F = Ok (b, F') ->
            ShorthandShadowedDecls F ⊆ ShorthandShadowedDecls F') cs ->
  forall F b F',
    walkAll (walkNode false) cs F = Ok (b, F') ->
    ShorthandShadowedDecls F ⊆ ShorthandShadowedDecls F'.
Proof.
  induction 1 as [| n cs Hn _ IH]; intros F b F'; simpl.
  - by intros [= <- <-].
  - destruct (walkNode false n F) as [[b1 F1] | f] eqn:Hn1; [| done].
    specialize (Hn _ _ _ Hn1).
    destruct b1; [by intros [= <- <-] |].
    intros Hw. etrans; [exact Hn | by eapply IH].
Qed.

Lemma walkNode_shadows (n : ASTNode) : forall F b F',
  walkNode false n F = Ok (b, F') ->
  ShorthandShadowedDecls F ⊆ ShorthandShadowedDecls F'.
Proof.
  induction n as [D cs IH | E cs IH | St cs IH] using ASTNode_tree_ind;
    intros F b F' Hw; simpl in Hw; unfold traverse in Hw.
  - destruct (walkToDeclPre false D F) as [[a F1] | f] eqn:Hpre; [| done].
    apply walkToDeclPre_Ok in Hpre.
    destruct (enterDecl_fields D F) as (_ & _ & HM & _).
    destruct a.
    + destruct Hpre as (_ & _ & ->). injection Hw as <- <-. simpl.
      by rewrite HM.
    + destruct Hpre as (_ & ->). by injection Hw as <- <-.
    + destruct Hpre as (_ & _ & ->).
      destruct (walkAll _ cs (enterDecl D F)) as [[b2 F2] | f] eqn:Hcs;
        [| done].
      apply (walkAll_shadows cs IH) in Hcs. rewrite HM in Hcs.
      destruct b2; [by injection Hw as <- <- |].
      destruct (walkToDeclPost false D F2) as [[a3 F3] | f] eqn:Hp; [| done].
      apply walkToDeclPost_Ok in Hp as (-> & _ & _ & HM3 & _).
      injection Hw as <- <-. by rewrite HM3.
  - destruct (walkToExprPre false E F) as [[a F1] | f] eqn:Hpre; [| done].
    pose proof (walkToExprPre_shadows _ _ _ _ Hpre) as HM1.
    destruct a; [by injection Hw as <- <- | by injection Hw as <- <- |].
    destruct (walkAll _ cs F1) as [[b2 F2] | f] eqn:Hcs; [| done].
    apply (walkAll_shadows cs IH) in Hcs.
    destruct b2; [injection Hw as <- <-; by etrans |].
    destruct (walkToExprPost false E F2) as [[a3 F3] | f] eqn:Hp; [| done].
    apply walkToExprPost_Ok in Hp as (-> & _ & _ & HM3 & _).
    injection Hw as <- <-. rewrite HM3. by etrans.
  - destruct (walkToStmtPre false St F) as [[a F1] | f] eqn:Hpre; [| done].
    pose proof (walkToStmtPre_shadows _ _ _ _ Hpre) as HM1.
    apply walkToStmtPre_Ok in Hpre as (-> & _).
    destruct (walkAll _ cs F1) as [[b2 F2] | f] eqn:Hcs; [| done].
    apply (walkAll_shadows cs IH) in Hcs.
    unfold walkToStmtPost in Hw.
    destruct b2; injection Hw as <- <-; by etrans.
Qed.

End Recorded.

(** X8.  In a build with assertions a walk only adds to the shadow map:
    every entry the map held before the walk it holds unchanged after it,
    so no recorded shadow is overwritten or lost. *)
Theorem resolve_keeps_shadows `{SourceManager} `{ShorthandShadows}
    (SrcFile : SourceFile) (F : NodeFinder) (stopped : bool)
    (F' : NodeFinder) :
  resolve false SrcFile F = Ok (stopped, F') ->
  forall k v,
    ShorthandShadowedDecls F !! k = Some v ->
    ShorthandShadowedDecls F' !! k = Some v.
Proof.
  intros Hw k v Hk.
  assert (ShorthandShadowedDecls F ⊆ ShorthandShadowedDecls F') as Hsub.
  { unfold resolve in Hw. eapply walkAll_shadows; [| exact Hw].
    apply Forall_forall. intros n _. apply walkNode_shadows. }
  by apply (lookup_weaken _ _ _ _ Hk Hsub).
Qed.

Lemma resolve_keeps_shadows_witness :
  @resolve false plainSourceManager ifLetShadows sampleShadowFile
    (set_shadows (<[52 := Some sampleMiddleX]> ∅)
       (NodeFinder_new sampleShadowFile 90))
  = Ok (true,
        set_Result (Some (NodeFinderExprResult sampleUse sampleFileContext))
          (set_shadows sampleShadows (NodeFinder_new sampleShadowFile 90))) /\
  (<[52 := Some sampleMiddleX]> ∅ : ShadowMap) !! 52
  = Some (Some sampleMiddleX) /\
  sampleShadows !! 52 = Some (Some sampleMiddleX).
Proof.
  assert (@resolve false plainSourceManager ifLetShadows sampleShadowFile
            (set_shadows (<[52 := Some sampleMiddleX]> ∅)
               (NodeFinder_new sampleShadowFile 90))
          = Ok (true,
                set_Result
                  (Some (NodeFinderExprResult sampleUse sampleFileContext))
                  (set_shadows sampleShadows
                     (NodeFinder_new sampleShadowFile 90)))) as Hrun
    by reflexivity.
  split; [exact Hrun |]. split; [reflexivity |].
  apply (@resolve_keeps_shadows plainSourceManager ifLetShadows _ _ _ _ Hrun
           52 (Some sampleMiddleX)).
  reflexivity.
Defined.

(** ** Type checking on demand, continued *)

Section TriggerMore.
Context `{TypeChecker}.

Lemma typesKept_refl (st : ASTState) : typesKept st st.
Proof. by split. Qed.

Lemma typesKept_trans (st1 st2 st3 : ASTState) :
  typesKept st1 st2 -> typesKept st2 st3 -> typesKept st1 st3.
Proof. intros [Hc1 Hi1] [Hc2 Hi2]. split; auto. Qed.

Lemma parentClosuresTyped_kept (st st' : ASTState) (DC : DeclContext) :
  typesKept st st' ->
  parentClosuresTyped st DC -> parentClosuresTyped st' DC.
Proof.
  intros [Hc _]. induction DC as [id | kind id Parent IH]; simpl; [done |].
  intros [Hclosure Hparent]. split; auto.
Qed.

Lemma typeCheckParentClosures_establishes (DC : DeclContext) :
  cooperative ->
  forall st,
    parentClosuresTyped (tc_state (typeCheckParentClosures DC st)) DC /\
    typesKept st (tc_state (typeCheckParentClosures DC st)).
Proof.
  unfold cooperative. intros (Hkeep & _ & _ & Hclosure & _).
  induction DC as [id | kind id Parent IH]; intros st; simpl.
  - split; [done | apply typesKept_refl].
  - unfold tc_bind, tc_state.
    destruct kind as [| | Loc]; simpl.
    + destruct (typeCheckParentClosures Parent st) as [[u st2] log2] eqn:Hrec.
      simpl. specialize (IH st). rewrite Hrec in IH.
      unfold tc_state in IH. simpl in IH.
      destruct IH as [IH1 IH2].
      split; [split; [by intros [? ?] | done] | done].
    + destruct (typeCheckParentClosures Parent st) as [[u st2] log2] eqn:Hrec.
      simpl. specialize (IH st). rewrite Hrec in IH.
      unfold tc_state in IH. simpl in IH.
      destruct IH as [IH1 IH2].
      split; [split; [by intros [? ?] | done] | done].
    + unfold tc_get, tc_bind, tc_typeCheckASTNodeAtLoc, tc_ret.
      destruct (closureType st _) as [T |] eqn:HT.
      * destruct (typeCheckParentClosures Parent st) as [[u st2] log2]
          eqn:Hrec.
        simpl. specialize (IH st). rewrite Hrec in IH.
        unfold tc_state in IH. simpl in IH.
        destruct IH as [IH1 IH2]. split; [| done]. split; [| done].
        intros _. apply IH2. by rewrite HT.
      * pose proof (Hkeep Parent Loc st) as Hk1.
        pose proof (Hclosure Loc id Parent st) as Hc1.
        destruct (typeCheckASTNodeAtLoc Parent Loc st) as [st1 sols].
        simpl in Hk1, Hc1.
        destruct (typeCheckParentClosures Parent st1) as [[u st2] log2]
          eqn:Hrec.
        simpl. specialize (IH st1). rewrite Hrec in IH.
        unfold tc_state in IH. simpl in IH.
        destruct IH as [IH1 IH2]. split.
        -- split; [| done]. intros _. by apply IH2.
        -- by eapply typesKept_trans.
Qed.

Lemma tc_bind_state {A B} (m : TC A) (k : A -> TC B) (st : ASTState) :
  tc_state (tc_bind m k st)
  = tc_state (k (fst (fst (m st))) (tc_state (m st))).
Proof.
  unfold tc_bind, tc_state.
  destruct (m st) as [[a st1] log1]. simpl.
  by destruct (k a st1) as [[b st2] log2].
Qed.

Lemma interface_step_establishes (VD : ValueDecl) (st : ASTState) :
  cooperative ->
  let st' :=
    tc_state
      (tc_bind tc_get
         (fun st0 =>
            match interfaceType st0 VD with
            | None =>
                tc_typeCheckASTNodeAtLoc (decl_context VD) (decl_loc VD)
            | Some _ => tc_ret tt
            end) st) in
  typesKept st st' /\ is_Some (interfaceType st' VD).
Proof.
  unfold cooperative. intros (Hkeep & _ & _ & _ & Hdecl).
  unfold tc_bind, tc_get, tc_state, tc_typeCheckASTNodeAtLoc, tc_ret.
  destruct (interfaceType st VD) as [T |] eqn:HT; simpl.
  - split; [apply typesKept_refl | by rewrite HT].
  - pose proof (Hkeep (decl_context VD) (decl_loc VD) st) as Hk.
    pose proof (Hdecl VD st) as Hd.
    by destruct (typeCheckASTNodeAtLoc _ _ st) as [st2 sols].
Qed.

Lemma var_step_keeps (VD : ValueDecl) (st : ASTState) :
  cooperative ->
  typesKept st
    (tc_state
       (match dyn_cast_VarDecl VD with
        | Some VarD =>
            tc_bind
              (if decl_hasAttachedPropertyWrapper VarD
               then tc_getPropertyWrapperBackingPropertyType VarD
               else tc_ret tt)
              (fun _ => tc_visitEmittedAccessors VarD)
        | None => tc_ret tt
        end st)).
Proof.
  unfold cooperative. intros (_ & Hkeepw & Hkeepv & _).
  destruct (dyn_cast_VarDecl VD) as [VarD |]; [| apply typesKept_refl].
  unfold tc_bind, tc_getPropertyWrapperBackingPropertyType,
    tc_visitEmittedAccessors, tc_ret, tc_state.
  destruct (decl_hasAttachedPropertyWrapper VarD); simpl.
  - eapply typesKept_trans; [apply Hkeepw | apply Hkeepv].
  - apply Hkeepv.
Qed.

Lemma trigger_establishes_types (VD : ValueDecl)
    (st : ASTState) :
  cooperative ->
  parentClosuresTyped
    (tc_state (typeCheckDeclAndParentClosures (Some VD) st))
    (decl_context VD) /\
  is_Some (interfaceType
             (tc_state (typeCheckDeclAndParentClosures (Some VD) st)) VD) /\
  typesKept st (tc_state (typeCheckDeclAndParentClosures (Some VD) st)).
Proof.
  intros Hcoop.
  destruct (typeCheckParentClosures_establishes (decl_context VD) Hcoop st)
    as [Hclosures Hkept].
  unfold typeCheckDeclAndParentClosures.
  rewrite tc_bind_state. cbv beta. rewrite tc_bind_state. cbv beta.
  set (stA := tc_state (typeCheckParentClosures (decl_context VD) st)) in *.
  destruct (interface_step_establishes VD stA Hcoop) as [HkB HiB].
  set (stB := tc_state (tc_bind tc_get _ stA)) in *.
  pose proof (var_step_keeps VD stB Hcoop) as HkC.
  split; [| split].
  - eapply parentClosuresTyped_kept; [| exact Hclosures].
    by eapply typesKept_trans.
  - by apply HkC.
  - eapply typesKept_trans; [exact Hkept |]. by eapply typesKept_trans.
Qed.

End TriggerMore.

(** X9.  With a type checker that keeps the types it has given and gives a
    type to the closure or declaration it is asked to check, one invocation
    of [typeCheckDeclAndParentClosures] leaves every enclosing closure with
    a type and the declaration with an interface type, loses no type that
    was there, and a second invocation makes no [typeCheckASTNodeAtLoc]
    request. *)
Theorem typeCheckDeclAndParentClosures_establishes `{TypeChecker}
    (VD : ValueDecl) (st : ASTState) :
  cooperative ->
  let st1 := tc_state (typeCheckDeclAndParentClosures (Some VD) st) in
  parentClosuresTyped st1 (decl_context VD) /\
  is_Some (interfaceType st1 VD) /\
  typesKept st st1 /\
  List.filter isTypeCheckASTNodeAtLoc
    (tc_log (typeCheckDeclAndParentClosures (Some VD) st1)) = [].
Proof.
  intros Hcoop st1.
  destruct (trigger_establishes_types VD st Hcoop)
    as (Hclosures & Htype & Hkept).
  split; [done |]. split; [done |]. split; [done |].
  destruct (typeCheckDeclAndParentClosures_checked VD st1 Hclosures Htype)
    as [-> _].
  apply varDeclRequests_no_typeCheck.
Qed.

Lemma sampleTypeChecker_cooperative
    (solver : SourceLoc -> list (SelectedOverloadInfo * bool)) :
  @cooperative (sampleTypeChecker true solver).
Proof.
  unfold cooperative.
  assert (forall (L : SourceLoc) (st : list SourceLoc),
            @typesKept (sampleTypeChecker true solver) st (L :: st)) as Hk.
  { intros L st. split; simpl.
    - intros DC. destruct (dyn_cast_AbstractClosureExpr DC) as [[id L'] |];
        [| done].
      destruct (bool_decide (L' ∈ st)) eqn:Hin; [| by intros [? ?]].
      apply bool_decide_eq_true in Hin.
      rewrite bool_decide_eq_true_2; [done | by right].
    - intros VD.
      destruct (bool_decide (decl_loc VD ∈ st)) eqn:Hin; [| by intros [? ?]].
      apply bool_decide_eq_true in Hin.
      rewrite bool_decide_eq_true_2; [done | by right]. }
  split; [intros DC L st; apply Hk |].
  split; [intros D st; by split |].
  split; [intros D st; by split |].
  split.
  - intros L id Parent st. simpl.
    rewrite bool_decide_eq_true_2; [done | by left].
  - intros VD st. simpl.
    rewrite bool_decide_eq_true_2; [done | by left].
Qed.

Lemma typeCheckDeclAndParentClosures_establishes_witness :
  let checker := sampleTypeChecker true noSolutions in
  let st1 :=
    tc_state (@typeCheckDeclAndParentClosures checker (Some sampleVar) []) in
  @cooperative checker /\
  @parentClosuresTyped checker st1 (decl_context sampleVar) /\
  is_Some (@interfaceType checker st1 sampleVar) /\
  @typesKept checker [] st1 /\
  List.filter (@isTypeCheckASTNodeAtLoc checker)
    (tc_log (@typeCheckDeclAndParentClosures checker (Some sampleVar) st1))
  = [].
Proof.
  intros checker st1.
  split; [apply sampleTypeChecker_cooperative |].
  exact (@typeCheckDeclAndParentClosures_establishes checker sampleVar []
           (sampleTypeChecker_cooperative noSolutions)).
Defined.

Section Requests.
Context `{TypeChecker}.

Lemma tc_bind_log {A B} (m : TC A) (k : A -> TC B) (st : ASTState) :
  tc_log (tc_bind m k st)
  = tc_log (m st) ++ tc_log (k (fst (fst (m st))) (tc_state (m st))).
Proof.
  unfold tc_bind, tc_state, tc_log.
  destruct (m st) as [[a st1] log1]. simpl.
  by destruct (k a st1) as [[b st2] log2].
Qed.

(** The requests of the loop over the parents: each is the type check of
    the parent of a closure of the chain, at the closure's location. *)
Lemma typeCheckParentClosures_requests (DC0 : DeclContext) :
  forall st,
    Forall (fun r =>
              match r with
              | Req_typeCheckASTNodeAtLoc DC Loc _ =>
                  exists id,
                    In (NestedContext (DCK_AbstractClosureExpr Loc) id DC)
                      (contextChain DC0)
              | _ => False
              end) (tc_log (typeCheckParentClosures DC0 st)).
Proof.
  induction DC0 as [id | kind id Parent IH]; intros st; simpl.
  - constructor.
  - rewrite tc_bind_log. apply Forall_app. split.
    + destruct kind as [| | Loc]; simpl; try constructor.
      unfold tc_bind, tc_get, tc_log, tc_typeCheckASTNodeAtLoc, tc_ret.
      destruct (closureType st _); simpl; [constructor |].
      destruct (typeCheckASTNodeAtLoc Parent Loc st) as [st1 sols]. simpl.
      constructor; [| constructor]. exists id. by left.
    + eapply Forall_impl; [apply IH |].
      intros [DC Loc sols | VarD | VarD]; simpl; try done.
      intros [id' Hin]. exists id'. by right.
Qed.

End Requests.

(** X10.  [typeCheckDeclAndParentClosures] asks for nothing but this:
    the type check of the declaration's own context at the declaration's
    location, the type check of the parent of a closure enclosing the
    declaration at that closure's location, and, for a variable only, the
    backing type of its attached property wrapper (if it has one) and the
    visit of its emitted accessors. *)
Theorem typeCheckDeclAndParentClosures_requests `{TypeChecker}
    (VD : ValueDecl) (st : ASTState) :
  Forall (requestFor VD)
    (tc_log (typeCheckDeclAndParentClosures (Some VD) st)).
Proof.
  unfold typeCheckDeclAndParentClosures.
  rewrite tc_bind_log. cbv beta. apply Forall_app. split.
  - eapply Forall_impl; [apply typeCheckParentClosures_requests |].
    intros [DC Loc sols | VarD | VarD]; simpl; try done.
    intros Hin. by right.
  - rewrite tc_bind_log. cbv beta. apply Forall_app. split.
    + unfold tc_bind, tc_get, tc_log, tc_typeCheckASTNodeAtLoc, tc_ret.
      set (stA := tc_state _).
      destruct (interfaceType stA VD); simpl; [constructor |].
      destruct (typeCheckASTNodeAtLoc _ _ stA) as [st2 sols]. simpl.
      constructor; [| constructor]. simpl. by left.
    + set (stB := tc_state _).
      unfold dyn_cast_VarDecl.
      destruct (isVarDeclKind (decl_kind VD)) eqn:Hvar; [| constructor].
      unfold tc_bind, tc_log, tc_getPropertyWrapperBackingPropertyType,
        tc_visitEmittedAccessors, tc_ret.
      destruct (decl_hasAttachedPropertyWrapper VD) eqn:Hwrap; simpl.
      * constructor; [done |]. constructor; [done | constructor].
      * constructor; [done | constructor].
Qed.

(** ** The references and the answer, continued *)

Section AnswerMore.
Context `{TypeChecker}.

Lemma sawSolutionImpl_reference (E : Expr) (Sol : Solution)
    (R : list CursorInfoDeclReference) :
  sawSolutionImpl E Sol R = R ++ option_list (solutionReference E Sol).
Proof.
  unfold sawSolutionImpl, solutionReference.
  destruct (Value (getSelectedOverloadInfo Sol E)); simpl;
    by rewrite ?app_nil_r.
Qed.

Lemma getShorthandShadowedDecls_returns (fuel : nat) (m : ShadowMap)
    (D : ValueDecl) :
  acyclic m -> size m <= fuel ->
  exists chain m',
    getShorthandShadowedDecls fuel m D = Some (chain, m') /\
    shadow_chain m (decl_id D) chain.
Proof.
  intros Hac Hfuel. unfold getShorthandShadowedDecls, shadow_index.
  destruct (m !! decl_id D) as [[Sh |] |] eqn:HD.
  - assert ({[decl_id D]} ⊆ dom m) as HV.
    { apply singleton_subseteq_l, elem_of_dom. by rewrite HD. }
    assert (size m + 1 <= fuel + size ({[decl_id D]} : gset nat)) as Hfuel'.
    { rewrite size_singleton. lia. }
    assert (forall d v, Some Sh = Some d -> v ∈ ({[decl_id D]} : gset nat) ->
                        reaches m v (decl_id d)) as Hreach.
    { intros d v [= <-] Hv. apply elem_of_singleton in Hv as ->.
      by apply reaches_step. }
    destruct (shadow_loop_finishes fuel m (Some Sh) [] _ Hac HV Hfuel' Hreach)
      as (l & m' & Hloop & l' & -> & Hch).
    exists (Sh :: l'), m'. split; [exact Hloop |]. by eapply chain_next.
  - exists [], m. split; [by destruct fuel | by apply chain_null].
  - exists [], (<[decl_id D := None]> m).
    split; [by destruct fuel | by apply chain_absent].
Qed.

End AnswerMore.

Lemma omap_length_le {A B} (f : A -> option B) (l : list A) :
  length (omap f l) <= length l.
Proof.
  induction l as [| x l IH]; simpl; [done |].
  change (list_omap A B f l) with (omap f l).
  destruct (f x); simpl; lia.
Qed.

(** X11.  The callback's [Results] are the references of the solutions
    that resolved the overload, one per such solution and in the order the
    solutions were seen, after the references that were there before;
    there are never more new references than solutions. *)
Theorem sawSolutions_references `{TypeChecker} (E : Expr)
    (sols : list Solution) (Results : list CursorInfoDeclReference) :
  sawSolutions E sols Results
  = Results ++ omap (solutionReference E) sols /\
  length (sawSolutions E sols Results) <= length Results + length sols.
Proof.
  assert (sawSolutions E sols Results
          = Results ++ omap (solutionReference E) sols) as Heq.
  { unfold sawSolutions. revert Results.
    induction sols as [| Sol sols IH]; intros Results; simpl.
    - by rewrite app_nil_r.
    - rewrite IH, sawSolutionImpl_reference.
      destruct (solutionReference E Sol); simpl.
      + by rewrite <- app_assoc.
      + by rewrite app_nil_r. }
  split; [exact Heq |].
  rewrite Heq, length_app.
  pose proof (omap_length_le (solutionReference E) sols). lia.
Qed.

(** X12.  When the walk finds a declaration and the shadow map has no
    cycle, [doneParsing] calls the consumer once, with an answer that is
    never null: the declaration itself, marked as no reference, without
    container type, not dynamic, without receiver types, and with the
    chain of declarations it shadows; the annotations are those the type
    check of the declaration leaves. *)
Theorem doneParsing_declaration (NDEBUG : bool) `{SourceManager}
    `{ShorthandShadows} `{TypeChecker} `{SmallVectorGrowth} (fuel : nat)
    (Loc : SourceLoc)
    (SF : SourceFile) (st : ASTState) (stopped : bool) (Finder : NodeFinder)
    (VD : ValueDecl) :
  resolve NDEBUG SF (NodeFinder_new SF Loc) = Ok (stopped, Finder) ->
  Result Finder = Some (NodeFinderDeclResult VD) ->
  acyclic (ShorthandShadowedDecls Finder) ->
  size (ShorthandShadowedDecls Finder) <= fuel ->
  exists Shadowed,
    shadow_chain (ShorthandShadowedDecls Finder) (decl_id VD) Shadowed /\
    doneParsing NDEBUG fuel Loc (Some SF) st
    = Returned
        ([Some {| ci_SrcFile := SF; ci_Loc := Loc; ci_ValueD := VD;
                  ci_CtorTyRef := None; ci_ExtTyRef := None;
                  ci_IsRef := false; ci_Ty := None;
                  ci_ContainerType := None; ci_CustomAttrRef := None;
                  ci_IsKeywordArgument := false; ci_IsDynamic := false;
                  ci_ReceiverTypes := [];
                  ci_ShorthandShadowedDecls := Shadowed |}],
         tc_state (typeCheckDeclAndParentClosures (Some VD) st)).
Proof.
  intros Hwalk Hres Hac Hfuel.
  destruct (getShorthandShadowedDecls_returns fuel _ VD Hac Hfuel)
    as (chain & m' & Hget & Hchain).
  exists chain. split; [exact Hchain |].
  unfold doneParsing. rewrite Hwalk, Hres.
  unfold getDeclResult, tc_state.
  destruct (typeCheckDeclAndParentClosures (Some VD) st) as [[u st1] log].
  by rewrite Hget.
Qed.

Lemma doneParsing_declaration_witness :
  let checker := sampleTypeChecker true noSolutions in
  @resolve false plainSourceManager noShorthandShadows sampleFuncFile
    (NodeFinder_new sampleFuncFile 5) = Ok (true, sampleFuncFinder) /\
  acyclic (ShorthandShadowedDecls sampleFuncFinder) /\
  exists Shadowed,
    shadow_chain (ShorthandShadowedDecls sampleFuncFinder)
      (decl_id sampleFunc) Shadowed /\
    @doneParsing false plainSourceManager noShorthandShadows checker
      doublingGrowth 0 5 (Some sampleFuncFile) []
    = Returned
        ([Some {| ci_SrcFile := sampleFuncFile; ci_Loc := 5;
                  ci_ValueD := sampleFunc;
                  ci_CtorTyRef := None; ci_ExtTyRef := None;
                  ci_IsRef := false; ci_Ty := None;
                  ci_ContainerType := None; ci_CustomAttrRef := None;
                  ci_IsKeywordArgument := false; ci_IsDynamic := false;
                  ci_ReceiverTypes := [];
                  ci_ShorthandShadowedDecls := Shadowed |}],
         tc_state
           (@typeCheckDeclAndParentClosures checker (Some sampleFunc) [])).
Proof.
  intros checker.
  assert (acyclic (ShorthandShadowedDecls sampleFuncFinder)) as Hac.
  { apply (acyclic_by_rank _ (fun k => k)). intros k Sh Hk.
    simpl in Hk. by rewrite lookup_empty in Hk. }
  split; [reflexivity |]. split; [exact Hac |].
  apply (@doneParsing_declaration false plainSourceManager noShorthandShadows
           checker doublingGrowth 0 5 sampleFuncFile [] true sampleFuncFinder
           sampleFunc eq_refl eq_refl Hac).
  vm_compute. lia.
Defined.

(** X13.  For a found expression and a shadow map without cycle,
    [getExprResult] ends in one of two ways.  Either its loop reads an
    entry from a buffer that [Results] has left, which takes at least two
    references from the statement and a further one from the checks of
    their declarations.  Or it returns, with the annotations the type
    checks have left; it then gives an answer exactly when one reference is
    counted, and the answer is that reference's declaration, marked as a
    reference, with the chain of declarations the referenced declaration
    shadows. *)
Theorem getExprResult_answers `{TypeChecker} `{SmallVectorGrowth}
    (fuel : nat) (Loc : SourceLoc) (E : Expr) (DC : DeclContext)
    (SF : SourceFile) (Finder : NodeFinder) (st : ASTState) :
  acyclic (ShorthandShadowedDecls Finder) ->
  size (ShorthandShadowedDecls Finder) <= fuel ->
  (loopReadsDangling E DC st = true ->
   getExprResult fuel Loc E DC SF Finder st = Aborted DanglingArrayRefRead /\
   2 <= length (fst (collectResults E DC st)) /\
   length (fst (collectResults E DC st))
   < length (fst (finalResults E DC st))) /\
  (loopReadsDangling E DC st = false ->
   exists CursorInfo,
     getExprResult fuel Loc E DC SF Finder st
     = Returned (CursorInfo, snd (finalResults E DC st)) /\
     (is_Some CursorInfo <-> length (fst (finalResults E DC st)) = 1) /\
     (forall Info,
        CursorInfo = Some Info ->
        fst (finalResults E DC st)
        = [mkReference (ci_ContainerType Info) (ci_IsDynamic Info)
             (ci_ValueD Info)] /\
        ci_IsRef Info = true /\
        shadow_chain (ShorthandShadowedDecls Finder)
          (decl_id (ci_ValueD Info)) (ci_ShorthandShadowedDecls Info))).
Proof.
  intros Hac Hfuel. rewrite getExprResult_finalResults. split.
  - intros Hd. split; [by rewrite Hd |].
    by apply loopReadsDangling_growth.
  - intros ->.
    destruct (finalResults E DC st) as [[| Res [| r' R]] st2]; simpl.
    + exists None. split; [done |]. split; [| done].
      split; [by intros [? ?] | done].
    + destruct (getShorthandShadowedDecls_returns fuel _ (ReferencedDecl Res)
                  Hac Hfuel) as (chain & m' & Hget & Hchain).
      rewrite Hget. eexists. split; [done |]. split; [by split |].
      intros Info [= <-]. simpl. split; [by destruct Res | done].
    + exists None. split; [done |]. split; [| done].
      split; [by intros [? ?] | done].
Qed.

Lemma getExprResult_answers_witness :
  let checker := sampleTypeChecker true dynamicSolver in
  acyclic (ShorthandShadowedDecls sampleRefFinder) /\
  size (ShorthandShadowedDecls sampleRefFinder) <= 0 /\
  @loopReadsDangling checker doublingGrowth sampleRef sampleFileContext []
  = false /\
  exists CursorInfo,
    @getExprResult checker doublingGrowth 0 5 sampleRef sampleFileContext
      sampleRefFile sampleRefFinder []
    = Returned (CursorInfo,
                snd (@finalResults checker sampleRef sampleFileContext [])) /\
    (is_Some CursorInfo <->
     length (fst (@finalResults checker sampleRef sampleFileContext [])) = 1).
Proof.
  intros checker.
  assert (acyclic (ShorthandShadowedDecls sampleRefFinder)) as Hac.
  { apply (acyclic_by_rank _ (fun k => k)). intros k Sh Hk.
    simpl in Hk. by rewrite lookup_empty in Hk. }
  assert (size (ShorthandShadowedDecls sampleRefFinder) <= 0) as Hsize
    by (vm_compute; lia).
  assert (@loopReadsDangling checker doublingGrowth sampleRef
            sampleFileContext [] = false) as Hd by reflexivity.
  split; [exact Hac |]. split; [exact Hsize |]. split; [exact Hd |].
  destruct (proj2 (@getExprResult_answers checker doublingGrowth 0 5 sampleRef
                     sampleFileContext sampleRefFile sampleRefFinder []
                     Hac Hsize) Hd)
    as (CursorInfo & Hget & Hiff & _).
  exists CursorInfo. by split.
Defined.

(** X14.  An answer for an expression comes from the solutions of the
    statement alone: when [getExprResult] gives one, the type check of the
    statement had produced exactly one reference, the type checks of the
    referenced declaration added none, and the answer is for that
    reference's declaration. *)
Theorem getExprResult_answer_from_statement `{TypeChecker}
    `{SmallVectorGrowth} (fuel : nat)
    (Loc : SourceLoc) (E : Expr) (DC : DeclContext) (SF : SourceFile)
    (Finder : NodeFinder) (st st' : ASTState)
    (Info : ResolvedValueRefCursorInfo) :
  getExprResult fuel Loc E DC SF Finder st = Returned (Some Info, st') ->
  exists Res,
    fst (collectResults E DC st) = [Res] /\
    fst (finalResults E DC st) = [Res] /\
    ci_ValueD Info = ReferencedDecl Res.
Proof.
  rewrite getExprResult_finalResults.
  destruct (loopReadsDangling E DC st); [done |].
  destruct (finalResults_extends E DC st) as [extra Hextra].
  assert (fst (collectResults E DC st) = [] ->
          fst (finalResults E DC st) = []) as Hempty.
  { unfold finalResults.
    destruct (collectResults E DC st) as [Results1 st1]. simpl.
    by intros ->. }
  destruct (finalResults E DC st) as [[| Res [| r' R]] st2]; simpl in *;
    try done.
  destruct (getShorthandShadowedDecls fuel _ _) as [[Shadowed m'] |];
    [| done].
  intros [= <- <-]. exists Res. simpl.
  destruct (fst (collectResults E DC st)) as [| c [| c' C]]; simpl in *.
  - by specialize (Hempty eq_refl).
  - injection Hextra as -> _. done.
  - done.
Qed.

Lemma getExprResult_answer_from_statement_witness :
  let checker := sampleTypeChecker true dynamicSolver in
  @getExprResult checker doublingGrowth 0 5 sampleRef sampleFileContext
    sampleRefFile sampleRefFinder []
  = Returned (Some sampleDynamicAnswer, [30; 5]) /\
  exists Res,
    fst (@collectResults checker sampleRef sampleFileContext []) = [Res] /\
    fst (@finalResults checker sampleRef sampleFileContext []) = [Res] /\
    ci_ValueD sampleDynamicAnswer = ReferencedDecl Res.
Proof.
  intros checker. split; [reflexivity |].
  apply (@getExprResult_answer_from_statement checker doublingGrowth 0 5
           sampleRef
           sampleFileContext sampleRefFile sampleRefFinder [] [30; 5]
           sampleDynamicAnswer).
  reflexivity.
Defined.

(** X15.  [doneParsing] calls the consumer at most once.  What it hands
    over, when not null, is for the file and the location of the request,
    has no constructor or extension type reference, no type, no custom
    attribute, and is no keyword argument; it has at most one receiver
    type, and none unless it is a dynamic reference with a container
    type. *)
Theorem doneParsing_answer_shape (NDEBUG : bool) `{SourceManager}
    `{ShorthandShadows} `{TypeChecker} `{SmallVectorGrowth} (fuel : nat)
    (Loc : SourceLoc)
    (SrcFile : option SourceFile) (st st' : ASTState)
    (calls : list ResolvedCursorInfoPtr) :
  doneParsing NDEBUG fuel Loc SrcFile st = Returned (calls, st') ->
  length calls <= 1 /\
  (forall Info,
     In (Some Info) calls ->
     SrcFile = Some (ci_SrcFile Info) /\ ci_Loc Info = Loc /\
     ci_CtorTyRef Info = None /\ ci_ExtTyRef Info = None /\
     ci_Ty Info = None /\ ci_CustomAttrRef Info = None /\
     ci_IsKeywordArgument Info = false /\
     length (ci_ReceiverTypes Info) <= 1 /\
     (ci_ReceiverTypes Info <> [] ->
      ci_IsRef Info = true /\ ci_IsDynamic Info = true /\
      is_Some (ci_ContainerType Info))).
Proof.
  unfold doneParsing.
  destruct SrcFile as [SF |]; [| intros [= <- <-]; simpl; split; [lia | done]].
  destruct (resolve NDEBUG SF _) as [[stopped Finder] | f]; [| done].
  destruct (Result Finder) as [[VD | E DC] |];
    [| | intros [= <- <-]; simpl; split; [lia | done]].
  - unfold getDeclResult.
    destruct (typeCheckDeclAndParentClosures (Some VD) st) as [[u st1] log].
    destruct (getShorthandShadowedDecls fuel _ VD) as [[Shadowed m'] |];
      [| done].
    intros [= <- <-]. simpl. split; [lia |].
    intros Info [[= <-] | []]. simpl. repeat split; try done. lia.
  - rewrite getExprResult_finalResults.
    destruct (loopReadsDangling E DC st); [done |].
    destruct (finalResults E DC st) as [[| Res [| r' R]] st2]; simpl;
      try (intros [= <- <-]; simpl; split; [lia |];
           by intros Info [[=] | []]).
    destruct (getShorthandShadowedDecls fuel _ _) as [[Shadowed m'] |];
      [| done].
    intros [= <- <-]. simpl. split; [lia |].
    intros Info [[= <-] | []]. simpl.
    unfold receiverTypesOf.
    destruct (IsDynamicRef Res), (BaseType Res) as [[D | Inst | n] |]; simpl;
      repeat split; try done; try lia;
      try (destruct (getAnyNominal Inst); simpl; (done || lia)).
Qed.

Lemma doneParsing_answer_shape_witness :
  let checker := sampleTypeChecker true dynamicSolver in
  @doneParsing false plainSourceManager noShorthandShadows checker
    doublingGrowth 0 5 (Some sampleRefFile) []
  = Returned ([Some sampleDynamicAnswer], [30; 5]) /\
  length [Some sampleDynamicAnswer] <= 1 /\
  (forall Info,
     In (Some Info) [Some sampleDynamicAnswer] ->
     Some sampleRefFile = Some (ci_SrcFile Info) /\ ci_Loc Info = 5 /\
     ci_CtorTyRef Info = None /\ ci_ExtTyRef Info = None /\
     ci_Ty Info = None /\ ci_CustomAttrRef Info = None /\
     ci_IsKeywordArgument Info = false /\
     length (ci_ReceiverTypes Info) <= 1 /\
     (ci_ReceiverTypes Info <> [] ->
      ci_IsRef Info = true /\ ci_IsDynamic Info = true /\
      is_Some (ci_ContainerType Info))).
Proof.
  intros checker. split; [reflexivity |].
  apply (@doneParsing_answer_shape false plainSourceManager
           noShorthandShadows checker doublingGrowth 0 5 (Some sampleRefFile)
           [] [30; 5] [Some sampleDynamicAnswer]).
  reflexivity.
Defined.

(** ** The loop over the collected references *)

(** X16.  The loop of [getExprResult] over the collected references
    either returns [Results] with the references that the checks of the
    referenced declarations have added, and the annotations these checks
    leave, or reads an entry from a buffer that [Results] has left.  It
    returns when the [ArrayRef] has at most one entry, when the checks add
    no reference, and when [Results] never has to move its elements. *)
Theorem typeCheckReferencedDecls_outcome `{TypeChecker} `{SmallVectorGrowth}
    (E : Expr) (Infos Results : list CursorInfoDeclReference)
    (st : ASTState) :
  let returns :=
    typeCheckReferencedDecls E Infos false Results st
    = Returned (resultsAfterChecks E Infos Results st) in
  (returns \/
   typeCheckReferencedDecls E Infos false Results st
   = Aborted DanglingArrayRefRead) /\
  (length Infos <= 1 -> returns) /\
  (fst (resultsAfterChecks E Infos Results st) = Results -> returns) /\
  ((forall n, reallocatesAt n = false) -> returns).
Proof.
  intros returns. subst returns. split; [| split; [| split]].
  - apply typeCheckReferencedDecls_cases.
  - destruct Infos as [| Info [| Info' Infos]]; simpl length; intros Hlen.
    + done.
    + apply typeCheckReferencedDecls_one.
    + lia.
  - apply typeCheckReferencedDecls_no_growth.
  - intros Hnever. by apply typeCheckReferencedDecls_never_moved.
Qed.

Lemma typeCheckReferencedDecls_outcome_witness :
  let checker := sampleTypeChecker true resolvingAgainSolver in
  let Infos := [mkReference None false sampleLocalOverload;
                mkReference None false sampleOtherLocalOverload] in
  (forall n, @reallocatesAt amplePreallocation n = false) /\
  @typeCheckReferencedDecls checker amplePreallocation sampleRef Infos false
    Infos [5]
  = Returned (@resultsAfterChecks checker sampleRef Infos Infos [5]) /\
  length (fst (@resultsAfterChecks checker sampleRef Infos Infos [5])) = 4 /\
  @typeCheckReferencedDecls checker doublingGrowth sampleRef Infos false
    Infos [5]
  = Aborted DanglingArrayRefRead.
Proof.
  intros checker Infos.
  assert (forall n, @reallocatesAt amplePreallocation n = false) as Hnever
    by done.
  split; [exact Hnever |].
  split; [| by split].
  exact (proj2 (proj2 (proj2
           (@typeCheckReferencedDecls_outcome checker amplePreallocation
              sampleRef Infos Infos [5]))) Hnever).
Defined.

(** X17.  [doneParsing] gives no answer in these ways.  Without a source
    file, or when the walk finds no node, it returns without calling the
    consumer.  When an expression was found, the references counted for it
    are none or more than one, and the loop over them reads no entry from
    a buffer that [Results] has left, it calls the consumer's
    [handleResults] once, with the null pointer. *)
Theorem doneParsing_null_answer (NDEBUG : bool) `{SourceManager}
    `{ShorthandShadows} `{TypeChecker} `{SmallVectorGrowth} (fuel : nat)
    (Loc : SourceLoc) (st : ASTState) :
  doneParsing NDEBUG fuel Loc None st = Returned ([], st) /\
  (forall SF stopped Finder,
     resolve NDEBUG SF (NodeFinder_new SF Loc) = Ok (stopped, Finder) ->
     Result Finder = None ->
     doneParsing NDEBUG fuel Loc (Some SF) st = Returned ([], st)) /\
  (forall SF stopped Finder E DC,
     resolve NDEBUG SF (NodeFinder_new SF Loc) = Ok (stopped, Finder) ->
     Result Finder = Some (NodeFinderExprResult E DC) ->
     length (fst (finalResults E DC st)) <> 1 ->
     loopReadsDangling E DC st = false ->
     doneParsing NDEBUG fuel Loc (Some SF) st
     = Returned ([None], snd (finalResults E DC st))).
Proof.
  split; [done |]. split.
  - intros SF stopped Finder Hwalk Hres.
    unfold doneParsing. by rewrite Hwalk, Hres.
  - intros SF stopped Finder E DC Hwalk Hres Hlen Hd.
    unfold doneParsing.
    by rewrite Hwalk, Hres, (getExprResult_not_one _ _ _ _ _ _ _ Hd Hlen).
Qed.

Lemma doneParsing_null_answer_witness :
  let checker := sampleTypeChecker true ambiguousSolver in
  @resolve true plainSourceManager noShorthandShadows sampleRefFile
    (NodeFinder_new sampleRefFile 5) = Ok (true, sampleRefFinder) /\
  length (fst (@finalResults checker sampleRef sampleFileContext [])) <> 1 /\
  @loopReadsDangling checker doublingGrowth sampleRef sampleFileContext []
  = false /\
  @doneParsing true plainSourceManager noShorthandShadows checker
    doublingGrowth 0 5 (Some sampleRefFile) []
  = Returned ([None],
              snd (@finalResults checker sampleRef sampleFileContext [])).
Proof.
  intros checker. split; [reflexivity |].
  assert (length (fst (@finalResults checker sampleRef sampleFileContext []))
          <> 1) as Hlen by (simpl; lia).
  assert (@loopReadsDangling checker doublingGrowth sampleRef
            sampleFileContext [] = false) as Hd by reflexivity.
  split; [exact Hlen |]. split; [exact Hd |].
  apply (@doneParsing_null_answer true plainSourceManager
           noShorthandShadows checker doublingGrowth 0 5 [] )
    with (stopped := true) (Finder := sampleRefFinder) (E := sampleRef)
         (DC := sampleFileContext);
    [reflexivity | reflexivity | exact Hlen | exact Hd].
Defined.


